(** * explore-kgp: the exploration tracker of [app/(tabs)/explore.tsx]

    The screen keeps a list of explored coordinates, appends a GPS fix when
    it is at least 30 m (haversine) from the points it compares against,
    and mirrors the list in a persistence store.  The source holds two
    revisions of the screen: one persisting through AsyncStorage (module
    [AsyncStorageVariant]) and one persisting through SQLite (module
    [SQLiteVariant]).  Both share [getDistance].

    JavaScript numbers are idealised as real numbers: [Math.sin],
    [Math.cos], [Math.sqrt] and [Math.PI] are the real functions and
    constant, [Math.atan2] is [atan2] below.  Rounding is not modelled,
    and the model has no NaN: for two nearly antipodal coordinates the
    program's [a_] can round above 1, [Math.sqrt(1 - a_)] is then NaN and
    so is the distance, where the model gives a number.  A statement
    about the value of [getDistance] at every pair of coordinates is
    therefore a statement about the model only. *)

From Stdlib Require Import Reals Lra Lia List Bool Permutation ZArith.
From Stdlib Require Import Machin.
Import ListNotations.

Local Open Scope R_scope.

(** ** Numbers *)

(** [type Coordinate = { latitude: number; longitude: number }] *)
Record Coordinate : Type := mkCoordinate {
  latitude : R;
  longitude : R
}.

(** The comparison [x < y] of two numbers, as a boolean. *)
Definition Rltb (x y : R) : bool :=
  if Rlt_dec x y then true else false.

(** [Math.atan2(y, x)] on real arguments: the angle of the point [(x, y)],
    in the interval from [-PI] (excluded) to [PI]. *)
Definition atan2 (y x : R) : R :=
  if Rlt_dec 0 x then atan (y / x)
  else if Rlt_dec x 0 then
         (if Rle_dec 0 y then atan (y / x) + PI else atan (y / x) - PI)
  else if Rlt_dec 0 y then PI / 2
  else if Rlt_dec y 0 then - (PI / 2)
  else 0.

(** ** getDistance *)

(** [const toRad = (deg: number) => (deg * Math.PI) / 180] *)
Definition toRad (deg : R) : R := (deg * PI) / 180.

(** The intermediate [a_] of [getDistance]. *)
Definition getDistance_a (a b : Coordinate) : R :=
  let dLat := toRad (latitude b - latitude a) in
  let dLon := toRad (longitude b - longitude a) in
  let lat1 := toRad (latitude a) in
  let lat2 := toRad (latitude b) in
  sin (dLat / 2) * sin (dLat / 2) +
  cos lat1 * cos lat2 * sin (dLon / 2) * sin (dLon / 2).

(** [getDistance], the same text in both revisions of the screen. *)
Definition getDistance (a b : Coordinate) : R :=
  let R_ := 6371e3 in
  let a_ := getDistance_a a b in
  let c := 2 * atan2 (sqrt a_) (sqrt (1 - a_)) in
  R_ * c.

(** The haversine formula as the specification words it:
    [d = 2 R atan2(sqrt h, sqrt (1 - h))] with
    [h = sin^2(dlat/2) + cos(lat1) cos(lat2) sin^2(dlon/2)], the angles
    being the coordinates converted from degrees to radians, and
    [R = 6,371,000] metres. *)
Definition earth_radius : R := 6371000.

Definition radians (deg : R) : R := deg * (PI / 180).

Definition haversine_h (lat1 lon1 lat2 lon2 : R) : R :=
  (sin ((lat2 - lat1) / 2))² + cos lat1 * cos lat2 * (sin ((lon2 - lon1) / 2))².

Definition haversine (a b : Coordinate) : R :=
  let lat1 := radians (latitude a) in
  let lon1 := radians (longitude a) in
  let lat2 := radians (latitude b) in
  let lon2 := radians (longitude b) in
  let h := haversine_h lat1 lon1 lat2 lon2 in
  2 * earth_radius * atan2 (sqrt h) (sqrt (1 - h)).

(** The coordinates used by the scenarios. *)

(** The fallback base of the simulated walk, and the first fix of the
    specification's scenarios. *)
Definition kgp : Coordinate := mkCoordinate 22.3149 87.3105.

(** 0.0001 degrees further in both directions: about 15 m from [kgp]. *)
Definition kgp_mid : Coordinate := mkCoordinate 22.3150 87.3106.

(** 0.0002 degrees further in both directions. *)
Definition kgp_near : Coordinate := mkCoordinate 22.3151 87.3107.

Definition north60 : Coordinate := mkCoordinate 60 10.

Definition north60_next : Coordinate :=
  mkCoordinate (60 + INR 1 * 0.0002) (10 + INR 1 * 0.0002).

(** ** The deduplication test *)

(** [const isNew = !explored.some((pt) => getDistance(pt, current) < 30)],
    as a function of the array [explored] that the expression reads. *)
Definition isNew (explored : list Coordinate) (current : Coordinate) : bool :=
  negb (existsb (fun pt => Rltb (getDistance pt current) 30) explored).

(** Every two entries at different positions are at least 30 m apart. *)
Definition pairwise_far (l : list Coordinate) : Prop :=
  forall (i j : nat) (p q : Coordinate),
    i <> j -> nth_error l i = Some p -> nth_error l j = Some q ->
    30 <= getDistance p q.

(** The minimum distance from [c] to the points of [l] is at least 30 m
    (vacuously so when [l] is empty). *)
Definition min_distance_ok (l : list Coordinate) (c : Coordinate) : Prop :=
  forall pt, In pt l -> 30 <= getDistance pt c.

(** ** Handlers

    An event handler of the screen runs over the screen's state and
    either returns or throws; an awaited promise that rejects throws at
    the [await]. *)

Inductive Settled : Type := Resolved | Rejected.

Inductive Completion (A : Type) : Type :=
| Normal (a : A)
| Thrown.
Arguments Normal {A} a.
Arguments Thrown {A}.

Definition Handler (S A : Type) : Type := S -> S * Completion A.

Definition ret {S A : Type} (a : A) : Handler S A :=
  fun s => (s, Normal a).

Definition bind {S A B : Type} (m : Handler S A) (k : A -> Handler S B)
  : Handler S B :=
  fun s =>
    match m s with
    | (s', Normal a) => k a s'
    | (s', Thrown) => (s', Thrown)
    end.

Declare Scope handler_scope.
Delimit Scope handler_scope with handler.
Notation "x <- m ;; k" := (bind m (fun x => k))
  (at level 61, m at next level, right associativity) : handler_scope.
Notation "m ;; k" := (bind m (fun _ => k))
  (at level 61, right associativity) : handler_scope.
Local Open Scope handler_scope.

(** [try { body } catch (e) { handler }] *)
Definition tryCatch {S : Type} (body handler : Handler S unit)
  : Handler S unit :=
  fun s =>
    match body s with
    | (s', Normal a) => (s', Normal a)
    | (s', Thrown) => handler s'
    end.

(** A state update that cannot throw. *)
Definition modify {S : Type} (f : S -> S) : Handler S unit :=
  fun s => (f s, Normal tt).

(** A promise that is started but not awaited: its rejection is not
    thrown into the caller. *)
Definition unawaited {S A : Type} (m : Handler S A) : Handler S unit :=
  fun s => (fst (m s), Normal tt).

(** [console.log(...)] in a [catch] clause. *)
Definition console_log {S : Type} : Handler S unit := ret tt.

(** The state a handler leaves, and how it completed. *)
Definition exec {S A : Type} (m : Handler S A) (s : S) : S := fst (m s).
Definition completion {S A : Type} (m : Handler S A) (s : S) : Completion A :=
  snd (m s).

(** [Location.requestForegroundPermissionsAsync()]: the [status]. *)
Inductive PermissionStatus : Type := granted | denied | undetermined.

(** The subscription [watchPositionAsync] returns, with the callback it
    was given.  The callback is the arrow function written inside
    [startTracking].  The [explored] it reads is the constant that
    [useState] bound in the render whose [startTracking] was called: a
    later [setExplored] makes the component render again with a new
    constant, but the callback registered with the location service keeps
    the one it closed over.  The updater given to [setExplored], on the
    other hand, receives the current array.  The subscription therefore
    records the array [explored] held when [startTracking] ran. *)
Record Subscription : Type := mkSubscription {
  cb_explored : list Coordinate
}.

(** ** The AsyncStorage revision of the screen *)

Module AsyncStorageVariant.

(** Calls made to [AsyncStorage] under the key ["explored-areas"].  The
    stored text is always the JSON of an array of coordinates; it is
    represented by that array. *)
Inductive StorageCall : Type :=
| GetItem
| SetItem (value : list Coordinate)
| RemoveItem.

(** The [useState] cells of [ExploreScreen], the item stored under the
    key ([None] when the key is absent) and the calls made so far. *)
Record Screen : Type := mkScreen {
  location : option Coordinate;
  explored : list Coordinate;
  isTracking : bool;
  watcher : option Subscription;
  storage : option (list Coordinate);
  storage_calls : list StorageCall
}.

(** The screen as mounted over a given store. *)
Definition mount (saved : option (list Coordinate)) : Screen :=
  mkScreen None [] false None saved [].

(** The persisted points: what [JSON.parse] gives on the stored item,
    nothing when the key is absent. *)
Definition persisted (s : Screen) : list Coordinate :=
  match storage s with
  | Some l => l
  | None => []
  end.

Definition setLocation (v : option Coordinate) : Handler Screen unit :=
  modify (fun s => mkScreen v (explored s) (isTracking s) (watcher s)
                            (storage s) (storage_calls s)).

(** [setExplored], called with an updater function. *)
Definition setExplored (f : list Coordinate -> list Coordinate)
  : Handler Screen unit :=
  modify (fun s => mkScreen (location s) (f (explored s)) (isTracking s)
                            (watcher s) (storage s) (storage_calls s)).

Definition setIsTracking (v : bool) : Handler Screen unit :=
  modify (fun s => mkScreen (location s) (explored s) v (watcher s)
                            (storage s) (storage_calls s)).

Definition setWatcher (v : option Subscription) : Handler Screen unit :=
  modify (fun s => mkScreen (location s) (explored s) (isTracking s) v
                            (storage s) (storage_calls s)).

Definition called (c : StorageCall) (s : Screen) : Screen :=
  mkScreen (location s) (explored s) (isTracking s) (watcher s)
           (storage s) (storage_calls s ++ [c]).

Definition stored (v : option (list Coordinate)) (s : Screen) : Screen :=
  mkScreen (location s) (explored s) (isTracking s) (watcher s)
           v (storage_calls s).

(** [await AsyncStorage.getItem("explored-areas")] *)
Definition getItem (o : Settled)
  : Handler Screen (option (list Coordinate)) :=
  fun s =>
    match o with
    | Resolved => (called GetItem s, Normal (storage s))
    | Rejected => (called GetItem s, Thrown)
    end.

(** [AsyncStorage.setItem("explored-areas", JSON.stringify(value))] *)
Definition setItem (value : list Coordinate) (o : Settled)
  : Handler Screen unit :=
  fun s =>
    match o with
    | Resolved => (stored (Some value) (called (SetItem value) s), Normal tt)
    | Rejected => (called (SetItem value) s, Thrown)
    end.

(** [AsyncStorage.removeItem("explored-areas")] *)
Definition removeItem (o : Settled) : Handler Screen unit :=
  fun s =>
    match o with
    | Resolved => (stored None (called RemoveItem s), Normal tt)
    | Rejected => (called RemoveItem s, Thrown)
    end.

(** The first effect: load the saved array when there is one. *)
Definition loadEffect (o : Settled) : Handler Screen unit :=
  saved <- getItem o ;;
  match saved with
  | Some v => setExplored (fun _ => v)
  | None => ret tt
  end.

(** The second effect, run after a render in which [explored] changed:
    [AsyncStorage.setItem("explored-areas", JSON.stringify(explored))],
    not awaited. *)
Definition persistEffect (o : Settled) : Handler Screen unit :=
  fun s => unawaited (setItem (explored s) o) s.

(** The callback given to [watchPositionAsync], for the fix [current]. *)
Definition onFix (sub : Subscription) (current : Coordinate)
  : Handler Screen unit :=
  setLocation (Some current) ;;
  if isNew (cb_explored sub) current
  then setExplored (fun prev => prev ++ [current])
  else ret tt.

Definition startTracking (status : PermissionStatus)
  : Handler Screen unit :=
  match status with
  | granted =>
      fun s =>
        (setWatcher (Some (mkSubscription (explored s))) ;;
         setIsTracking true) s
  | _ => ret tt
  end.

Definition stopTracking : Handler Screen unit :=
  setWatcher None ;; setIsTracking false.

Definition toggleTracking (status : PermissionStatus)
  : Handler Screen unit :=
  fun s => if isTracking s then stopTracking s else startTracking status s.

Definition reset (o : Settled) : Handler Screen unit :=
  setExplored (fun _ => []) ;;
  unawaited (removeItem o).

(** What happens to the screen.  A fix is delivered to the callback of
    the current subscription; the persistence effect follows every
    handler that set [explored], with the outcome [write] of its
    [setItem].  Events are taken one at a time. *)
Inductive Event : Type :=
| StartTracking (status : PermissionStatus)
| StopTracking
| Fix (c : Coordinate) (write : Settled)
| Reset (remove write : Settled).

Definition step (ev : Event) : Handler Screen unit :=
  match ev with
  | StartTracking status => startTracking status
  | StopTracking => stopTracking
  | Fix c write =>
      fun s =>
        match watcher s with
        | Some sub =>
            (onFix sub c ;;
             if isNew (cb_explored sub) c then persistEffect write
             else ret tt) s
        | None => ret tt s
        end
  | Reset remove write => reset remove ;; persistEffect write
  end.

Definition run (evs : list Event) (s : Screen) : Screen :=
  fold_left (fun st ev => exec (step ev) st) evs s.

(** The fog overlay draws one circle per explored point, on a window
    [width] by [height]: [cx] and [cy] of the circle of [pt]. *)
Definition circle_cx (width : R) (pt : Coordinate) : R :=
  ((longitude pt + 180) / 360) * width.

Definition circle_cy (height : R) (pt : Coordinate) : R :=
  ((90 - latitude pt) / 180) * height.

(** The events that cannot create a subscription: fixes, stops, and
    starts whose permission request is not granted. *)
Definition idle_event (ev : Event) : Prop :=
  match ev with
  | Fix _ _ => True
  | StopTracking => True
  | StartTracking status => status <> granted
  | Reset _ _ => False
  end.

(** The events whose persistence write, when there is one, succeeds. *)
Definition write_ok (ev : Event) : Prop :=
  match ev with
  | Fix _ write => write = Resolved
  | Reset _ write => write = Resolved
  | _ => True
  end.

End AsyncStorageVariant.

(** ** The SQLite revision of the screen *)

Module SQLiteVariant.

(** A row of [explored_points]. *)
Record Row : Type := mkRow {
  row_id : Z;
  row_latitude : R;
  row_longitude : R;
  row_timestamp : Z
}.

(** The table: its rows in key order, and the largest key handed out so
    far ([AUTOINCREMENT] never reuses one). *)
Record Db : Type := mkDb {
  rows : list Row;
  last_id : Z
}.

Definition empty_db : Db := mkDb [] 0.

(** The statements the screen sends to the database. *)
Inductive Statement : Type :=
| CreateTable
| SelectAll
| InsertPoint (lat lon : R) (timestamp : Z)
| DeleteAll.

(** The columns [latitude, longitude] of a row. *)
Definition coordinate_of (r : Row) : Coordinate :=
  mkCoordinate (row_latitude r) (row_longitude r).

Definition insert_row (lat lon : R) (timestamp : Z) (d : Db) : Db :=
  mkDb (rows d ++ [mkRow (last_id d + 1) lat lon timestamp]) (last_id d + 1).

Definition delete_rows (d : Db) : Db := mkDb [] (last_id d).

(** The buttons of the confirmation dialog that [reset] opens. *)
Inductive AlertButton : Type := Cancel | Clear.

(** The [useState] cells of [ExploreScreen], the database behind the
    singleton [db], and the statements sent so far.  The messages posted
    to the web view are not part of the state. *)
Record Screen : Type := mkScreen {
  location : option Coordinate;
  explored : list Coordinate;
  isTracking : bool;
  watcher : option Subscription;
  db : Db;
  db_calls : list Statement
}.

(** The screen as mounted over a given database. *)
Definition mount (d : Db) : Screen := mkScreen None [] false None d [].

(** The persisted points, in key order. *)
Definition persisted (s : Screen) : list Coordinate :=
  map coordinate_of (rows (db s)).

Definition setLocation (v : option Coordinate) : Handler Screen unit :=
  modify (fun s => mkScreen v (explored s) (isTracking s) (watcher s)
                            (db s) (db_calls s)).

(** [setExplored], called with an updater function. *)
Definition setExplored (f : list Coordinate -> list Coordinate)
  : Handler Screen unit :=
  modify (fun s => mkScreen (location s) (f (explored s)) (isTracking s)
                            (watcher s) (db s) (db_calls s)).

Definition setIsTracking (v : bool) : Handler Screen unit :=
  modify (fun s => mkScreen (location s) (explored s) v (watcher s)
                            (db s) (db_calls s)).

Definition setWatcher (v : option Subscription) : Handler Screen unit :=
  modify (fun s => mkScreen (location s) (explored s) (isTracking s) v
                            (db s) (db_calls s)).

Definition called (c : Statement) (s : Screen) : Screen :=
  mkScreen (location s) (explored s) (isTracking s) (watcher s)
           (db s) (db_calls s ++ [c]).

Definition with_db (f : Db -> Db) (s : Screen) : Screen :=
  mkScreen (location s) (explored s) (isTracking s) (watcher s)
           (f (db s)) (db_calls s).

(** [await db.execAsync("CREATE TABLE IF NOT EXISTS explored_points ...")] *)
Definition execCreateTable (o : Settled) : Handler Screen unit :=
  fun s =>
    match o with
    | Resolved => (called CreateTable s, Normal tt)
    | Rejected => (called CreateTable s, Thrown)
    end.

(** [await db.runAsync("INSERT INTO explored_points ...", [lat, lon, ts])] *)
Definition runInsert (lat lon : R) (timestamp : Z) (o : Settled)
  : Handler Screen unit :=
  fun s =>
    let s' := called (InsertPoint lat lon timestamp) s in
    match o with
    | Resolved => (with_db (insert_row lat lon timestamp) s', Normal tt)
    | Rejected => (s', Thrown)
    end.

(** [await db.runAsync("DELETE FROM explored_points")] *)
Definition runDelete (o : Settled) : Handler Screen unit :=
  fun s =>
    let s' := called DeleteAll s in
    match o with
    | Resolved => (with_db delete_rows s', Normal tt)
    | Rejected => (s', Thrown)
    end.

Section Store.

(** The statement [SELECT latitude, longitude FROM explored_points] has
    no [ORDER BY]: the order in which the store returns the rows is a
    parameter. *)
Variable select_order : list Row -> list Row.

(** [await db.getAllAsync("SELECT latitude, longitude FROM ...")] *)
Definition getAllAsync (o : Settled) : Handler Screen (list Coordinate) :=
  fun s =>
    let s' := called SelectAll s in
    match o with
    | Resolved => (s', Normal (map coordinate_of (select_order (rows (db s)))))
    | Rejected => (s', Thrown)
    end.

Definition initDB (create select : Settled) : Handler Screen unit :=
  tryCatch
    (execCreateTable create ;;
     result <- getAllAsync select ;;
     setExplored (fun _ => result))
    console_log.

(** The [onPress] of the "Sync Web" button: clear, then reload from the
    database. *)
Definition syncWeb (select : Settled) : Handler Screen unit :=
  setExplored (fun _ => []) ;;
  tryCatch
    (result <- getAllAsync select ;;
     setExplored (fun _ => result))
    console_log.

End Store.

(** The callback given to [watchPositionAsync], for the fix [current];
    [now] is [Date.now()] and [insert] the outcome of the [INSERT]. *)
Definition onFix (sub : Subscription) (current : Coordinate) (now : Z)
  (insert : Settled) : Handler Screen unit :=
  setLocation (Some current) ;;
  if isNew (cb_explored sub) current
  then
    tryCatch
      (runInsert (latitude current) (longitude current) now insert ;;
       setExplored (fun prev => prev ++ [current]))
      console_log
  else ret tt.

Definition startTracking (status : PermissionStatus)
  : Handler Screen unit :=
  match status with
  | granted =>
      fun s =>
        (setWatcher (Some (mkSubscription (explored s))) ;;
         setIsTracking true) s
  | _ => ret tt
  end.

Definition stopTracking : Handler Screen unit :=
  setWatcher None ;; setIsTracking false.

Definition toggleTracking (status : PermissionStatus)
  : Handler Screen unit :=
  fun s => if isTracking s then stopTracking s else startTracking status s.

(** [reset]: the dialog, and the [onPress] of the button chosen. *)
Definition reset (button : AlertButton) (delete : Settled)
  : Handler Screen unit :=
  match button with
  | Cancel => ret tt
  | Clear =>
      tryCatch
        (runDelete delete ;;
         setExplored (fun _ => []))
        console_log
  end.

(** [x || fallback] on an optional number: zero is falsy. *)
Definition or_else (x : option R) (fallback : R) : R :=
  match x with
  | Some v => if Req_dec_T v 0 then fallback else v
  | None => fallback
  end.

Definition baseLat (s : Screen) : R :=
  or_else (option_map latitude (location s)) 22.3149.

Definition baseLon (s : Screen) : R :=
  or_else (option_map longitude (location s)) 87.3105.

(** The five points of the simulated walk, [i] running from 0 to 4. *)
Definition newPoints (lat lon : R) : list Coordinate :=
  map (fun i => mkCoordinate (lat + INR i * 0.0002) (lon + INR i * 0.0002))
      (seq 0 5).

(** [for (const p of points) { await db.runAsync("INSERT ...") }], the
    points being numbered from [i]; [clock i] is [Date.now()] at the
    insert numbered [i] and [inserts i] its outcome. *)
Fixpoint insertEach (points : list Coordinate) (i : nat)
  (clock : nat -> Z) (inserts : nat -> Settled) : Handler Screen unit :=
  match points with
  | [] => ret tt
  | p :: rest =>
      runInsert (latitude p) (longitude p) (clock i) (inserts i) ;;
      insertEach rest (S i) clock inserts
  end.

(** The [onPress] of the "Simulate Walk" button. *)
Definition simulateWalk (clock : nat -> Z) (inserts : nat -> Settled)
  : Handler Screen unit :=
  fun s =>
    let points := newPoints (baseLat s) (baseLon s) in
    tryCatch
      (insertEach points 0 clock inserts ;;
       setExplored (fun prev => prev ++ points))
      console_log s.

(** What happens to the screen.  A fix is delivered to the callback of
    the current subscription.  Events are taken one at a time: a handler
    runs to its end, awaits and the reload's timer included, before the
    next event. *)
Inductive Event : Type :=
| InitDB (create select : Settled)
| StartTracking (status : PermissionStatus)
| StopTracking
| Fix (c : Coordinate) (now : Z) (insert : Settled)
| Reset (button : AlertButton) (delete : Settled)
| SimulateWalk (clock : nat -> Z) (inserts : nat -> Settled)
| SyncWeb (select : Settled).

Definition deliver (c : Coordinate) (now : Z) (insert : Settled)
  : Handler Screen unit :=
  fun s =>
    match watcher s with
    | Some sub => onFix sub c now insert s
    | None => ret tt s
    end.

Definition step (select_order : list Row -> list Row) (ev : Event)
  : Handler Screen unit :=
  match ev with
  | InitDB create select => initDB select_order create select
  | StartTracking status => startTracking status
  | StopTracking => stopTracking
  | Fix c now insert => deliver c now insert
  | Reset button delete => reset button delete
  | SimulateWalk clock inserts => simulateWalk clock inserts
  | SyncWeb select => syncWeb select_order select
  end.

Definition run (select_order : list Row -> list Row) (evs : list Event)
  (s : Screen) : Screen :=
  fold_left (fun st ev => exec (step select_order ev) st) evs s.

(** The events that cannot leave the table ahead of, or behind, the
    in-memory array: a simulated walk whose five inserts all succeed, a
    reload whose read succeeds, and every other event (a fix whose insert
    fails appends to neither side). *)
Definition io_ok (ev : Event) : Prop :=
  match ev with
  | SimulateWalk _ inserts => forall i, inserts i = Resolved
  | SyncWeb select => select = Resolved
  | _ => True
  end.

(** The in-memory array holds the persisted points, in some order. *)
Definition mirrored (s : Screen) : Prop :=
  Permutation (explored s) (persisted s).

(** The events that cannot create a subscription: fixes, stops, and
    starts whose permission request is not granted. *)
Definition idle_event (ev : Event) : Prop :=
  match ev with
  | Fix _ _ _ => True
  | StopTracking => True
  | StartTracking status => status <> granted
  | _ => False
  end.

(** The events of tracking and of the simulated walk: no reset, no
    reload, no initial load. *)
Definition growing_event (ev : Event) : Prop :=
  match ev with
  | StartTracking _ => True
  | StopTracking => True
  | Fix _ _ _ => True
  | SimulateWalk _ _ => True
  | _ => False
  end.

(** [isTracking] is set exactly when there is a subscription. *)
Definition tracking_consistent (s : Screen) : Prop :=
  isTracking s = true <-> watcher s <> None.


(** The message of the effect that pushes updates to the web view:
    [{ type: 'update', location, points: explored, shouldCenter }]. *)
Record WebMessage : Type := mkWebMessage {
  msg_location : option Coordinate;
  msg_points : list Coordinate;
  msg_shouldCenter : bool
}.

(** The effect that pushes updates to the web view, run after a render
    in which [location], [explored], [isTracking] or [isMapReady]
    changed: the message it posts, if any.  [webview] tells whether
    [webviewRef.current] is set. *)
Definition pushUpdate (isMapReady webview : bool) (s : Screen)
  : option WebMessage :=
  if isMapReady && webview &&
     (match location s with Some _ => true | None => false end
      || Nat.ltb 0 (length (explored s)))
  then Some (mkWebMessage (location s) (explored s) (isTracking s))
  else None.

End SQLiteVariant.

(** * Properties *)

(** ** The haversine formula *)

Lemma getDistance_a_haversine_h (a b : Coordinate) :
  getDistance_a a b =
  haversine_h (radians (latitude a)) (radians (longitude a))
              (radians (latitude b)) (radians (longitude b)).
Proof.
  unfold getDistance_a, haversine_h, toRad, radians, Rsqr.
  replace ((latitude b - latitude a) * PI / 180 / 2)
    with ((latitude b * (PI / 180) - latitude a * (PI / 180)) / 2) by field.
  replace ((longitude b - longitude a) * PI / 180 / 2)
    with ((longitude b * (PI / 180) - longitude a * (PI / 180)) / 2) by field.
  replace (latitude a * PI / 180) with (latitude a * (PI / 180)) by field.
  replace (latitude b * PI / 180) with (latitude b * (PI / 180)) by field.
  ring.
Qed.

(** Over the real numbers [getDistance a b] and the formula
    [2 R atan2(sqrt h, sqrt (1 - h))] of the specification agree.  This
    is a fact of the model: the program evaluates the formula in
    doubles, and differs from it by rounding and, for nearly antipodal
    coordinates, by returning NaN. *)
Theorem getDistance_is_haversine (a b : Coordinate) :
  getDistance a b = haversine a b.
Proof.
  unfold getDistance, haversine.
  cbv zeta.
  rewrite getDistance_a_haversine_h.
  unfold earth_radius.
  lra.
Qed.

(** ** Analytic facts about [getDistance] *)

Lemma PI_bounds : 3.1415 < PI < 3.1421.
Proof.
  pose proof (PI_2_3_7_ineq 1) as [Hlo Hhi].
  unfold sum_f_R0, tg_alt, PI_2_3_7_tg, Ratan_seq in Hlo, Hhi.
  simpl in Hlo, Hhi.
  split; lra.
Qed.

Lemma sin_lower (x : R) : 0 <= x -> x <= PI -> x - x ^ 3 / 6 <= sin x.
Proof.
  intros H0 H1.
  pose proof (sin_bound x 0 H0 H1) as [Hlo _].
  unfold sin_approx, sin_term, sum_f_R0 in Hlo. simpl in Hlo.
  lra.
Qed.

Lemma cos_lower (x : R) :
  - PI / 2 <= x -> x <= PI / 2 -> 1 - x ^ 2 / 2 <= cos x.
Proof.
  intros H0 H1.
  pose proof (cos_bound x 0 H0 H1) as [Hlo _].
  unfold cos_approx, cos_term, sum_f_R0 in Hlo. simpl in Hlo.
  lra.
Qed.

Lemma sin_le_self (x : R) : 0 <= x -> sin x <= x.
Proof.
  intros [Hx | <-].
  - left. now apply sin_lt_x.
  - rewrite sin_0. lra.
Qed.

Lemma sin_half_sqr (x : R) : sin (x / 2) * sin (x / 2) = (1 - cos x) / 2.
Proof.
  pose proof (cos_2a_sin (x / 2)) as H.
  replace (2 * (x / 2)) with x in H by field.
  lra.
Qed.

(** The intermediate [a_] lies between 0 and 1 for all coordinates, so
    both square roots of [getDistance] are taken of non-negative
    numbers. *)
Lemma getDistance_a_range (a b : Coordinate) :
  0 <= getDistance_a a b <= 1.
Proof.
  unfold getDistance_a. cbv zeta.
  replace (cos (toRad (latitude a)) * cos (toRad (latitude b)) *
           sin (toRad (longitude b - longitude a) / 2) *
           sin (toRad (longitude b - longitude a) / 2))
    with (cos (toRad (latitude a)) * cos (toRad (latitude b)) *
          (sin (toRad (longitude b - longitude a) / 2) *
           sin (toRad (longitude b - longitude a) / 2))) by ring.
  rewrite !sin_half_sqr.
  replace (toRad (latitude b - latitude a))
    with (toRad (latitude b) - toRad (latitude a))
    by (unfold toRad; field).
  set (p1 := toRad (latitude a)).
  set (p2 := toRad (latitude b)).
  set (dl := toRad (longitude b - longitude a)).
  pose proof (COS_bound (p2 - p1)) as [Hu1 Hu2].
  pose proof (COS_bound (p2 + p1)) as [Hv1 Hv2].
  pose proof (COS_bound dl) as [Hw1 Hw2].
  pose proof (cos_minus p2 p1) as Hm.
  pose proof (cos_plus p2 p1) as Hp.
  set (u := cos (p2 - p1)) in *.
  set (v := cos (p2 + p1)) in *.
  set (w := cos dl) in *.
  assert (Hcc : cos p1 * cos p2 = (u + v) / 2) by lra.
  rewrite Hcc.
  assert (H1 : 0 <= (1 - u) * (1 + w)) by (apply Rmult_le_pos; lra).
  assert (H2 : 0 <= (1 + v) * (1 - w)) by (apply Rmult_le_pos; lra).
  assert (H3 : 0 <= (1 + u) * (1 + w)) by (apply Rmult_le_pos; lra).
  assert (H4 : 0 <= (1 - v) * (1 - w)) by (apply Rmult_le_pos; lra).
  split; nra.
Qed.

Lemma atan2_pos_x (y x : R) : 0 < x -> atan2 y x = atan (y / x).
Proof.
  intros Hx. unfold atan2. destruct (Rlt_dec 0 x); [reflexivity | contradiction].
Qed.

(** For [0 <= h <= 1] the two-argument arctangent of the source is the
    arcsine of [sqrt h]. *)
Lemma atan2_sqrt_asin (h : R) :
  0 <= h <= 1 -> atan2 (sqrt h) (sqrt (1 - h)) = asin (sqrt h).
Proof.
  intros [H0 [H1 | ->]].
  - assert (Hs : 0 < sqrt (1 - h)) by (apply sqrt_lt_R0; lra).
    rewrite atan2_pos_x by assumption.
    assert (Hlt : sqrt h < 1).
    { rewrite <- sqrt_1. apply sqrt_lt_1; lra. }
    pose proof (sqrt_pos h) as Hp.
    rewrite asin_atan by lra.
    rewrite Rsqr_sqrt by assumption.
    reflexivity.
  - replace (1 - 1) with 0 by ring.
    rewrite sqrt_0, sqrt_1, asin_1.
    unfold atan2.
    destruct (Rlt_dec 0 0) as [H | _]; [lra |].
    destruct (Rlt_dec 0 1) as [_ | H]; [reflexivity | lra].
Qed.

(** [getDistance] in the arcsine form of the haversine formula:
    [R * 2 asin (sqrt a_)], for all coordinates. *)
Lemma getDistance_asin (a b : Coordinate) :
  getDistance a b = 6371e3 * (2 * asin (sqrt (getDistance_a a b))).
Proof.
  unfold getDistance. cbv zeta.
  now rewrite atan2_sqrt_asin by apply getDistance_a_range.
Qed.

Lemma sqrt_a_range (a b : Coordinate) :
  0 <= sqrt (getDistance_a a b) <= 1.
Proof.
  destruct (getDistance_a_range a b) as [H0 H1].
  split; [apply sqrt_pos |].
  rewrite <- sqrt_1. apply sqrt_le_1; lra.
Qed.

Lemma asin_lower (s k : R) : 0 <= k -> k <= s -> s <= 1 -> k <= asin s.
Proof.
  intros Hk Hks Hs.
  destruct (Rle_lt_dec k (asin s)) as [Hle | Hlt]; [assumption | exfalso].
  pose proof (asin_bound s) as [Hb1 Hb2].
  pose proof PI_bounds as [Hp1 Hp2].
  assert (Hk2 : k <= PI / 2) by lra.
  pose proof (sin_increasing_1 (asin s) k Hb1 Hb2 ltac:(lra) Hk2 Hlt) as Hsin.
  rewrite sin_asin in Hsin by lra.
  pose proof (sin_le_self k Hk). lra.
Qed.

Lemma asin_upper (s k : R) :
  0 <= s -> s < sin k -> 0 <= k <= PI / 2 -> asin s < k.
Proof.
  intros Hs Hsk [Hk1 Hk2].
  pose proof (SIN_bound k) as [_ Hsb].
  pose proof (asin_bound s) as [Hb1 Hb2].
  apply (sin_increasing_0 (asin s) k); try lra.
  rewrite sin_asin by lra. assumption.
Qed.

(** The distance does not depend on the order of its arguments. *)
Lemma getDistance_a_sym (a b : Coordinate) :
  getDistance_a a b = getDistance_a b a.
Proof.
  unfold getDistance_a, toRad. cbv zeta.
  replace ((latitude a - latitude b) * PI / 180 / 2)
    with (- ((latitude b - latitude a) * PI / 180 / 2)) by field.
  replace ((longitude a - longitude b) * PI / 180 / 2)
    with (- ((longitude b - longitude a) * PI / 180 / 2)) by field.
  rewrite !sin_neg. ring.
Qed.

Lemma getDistance_sym (a b : Coordinate) : getDistance a b = getDistance b a.
Proof. unfold getDistance. now rewrite getDistance_a_sym. Qed.

(** A lower bound: when [k^2 <= a_], the distance is at least [2 R k]. *)
Lemma getDistance_lower (a b : Coordinate) (k : R) :
  0 <= k -> k² <= getDistance_a a b ->
  6371e3 * (2 * k) <= getDistance a b.
Proof.
  intros Hk Hlo.
  pose proof (Rle_0_sqr k) as Hk2.
  rewrite getDistance_asin.
  assert (Hks : k <= sqrt (getDistance_a a b)).
  { rewrite <- (sqrt_Rsqr k Hk). apply sqrt_le_1; lra. }
  destruct (sqrt_a_range a b) as [_ Hs1].
  pose proof (asin_lower _ _ Hk Hks Hs1). lra.
Qed.

(** An upper bound: when [a_ < (sin k)^2] for an angle [k] of the first
    quadrant, the distance is below [2 R k]. *)
Lemma getDistance_upper (a b : Coordinate) (k : R) :
  0 <= k <= PI / 2 ->
  getDistance_a a b < (sin k)² ->
  getDistance a b < 6371e3 * (2 * k).
Proof.
  intros Hk Hhi.
  destruct (getDistance_a_range a b) as [Hlo _].
  assert (Hsk : 0 <= sin k).
  { pose proof PI_bounds. apply sin_ge_0; lra. }
  rewrite getDistance_asin.
  assert (Hlt : sqrt (getDistance_a a b) < sin k).
  { rewrite <- (sqrt_Rsqr (sin k) Hsk). apply sqrt_lt_1; lra. }
  pose proof (asin_upper _ _ (sqrt_pos _) Hlt Hk). lra.
Qed.

(** A coordinate is at distance zero from itself. *)
Lemma getDistance_a_self (c : Coordinate) : getDistance_a c c = 0.
Proof.
  unfold getDistance_a, toRad.
  replace ((latitude c - latitude c) * PI / 180 / 2) with 0 by field.
  replace ((longitude c - longitude c) * PI / 180 / 2) with 0 by field.
  rewrite sin_0. ring.
Qed.

Lemma getDistance_self (c : Coordinate) : getDistance c c = 0.
Proof.
  rewrite getDistance_asin, getDistance_a_self, sqrt_0, asin_0. ring.
Qed.

(** ** The scenarios' coordinates *)

Lemma kgp_near_a_bound :
  (15 / 6371000)² <= getDistance_a kgp kgp_near.
Proof.
  pose proof PI_bounds as [Hp1 Hp2].
  unfold getDistance_a, kgp, kgp_near, toRad; simpl.
  replace ((22.3151 - 22.3149) * PI / 180 / 2) with (PI / 1800000) by lra.
  replace ((87.3107 - 87.3105) * PI / 180 / 2) with (PI / 1800000) by lra.
  set (x := PI / 1800000).
  set (y1 := 22.3149 * PI / 180).
  set (y2 := 22.3151 * PI / 180).
  assert (Hx : 1.74527e-6 <= x <= 1.74562e-6) by (unfold x; lra).
  assert (Hy1 : 0 <= y1 <= 0.38954) by (unfold y1; lra).
  assert (Hy2 : 0 <= y2 <= 0.38954) by (unfold y2; lra).
  assert (Hs1 : 1.7452e-6 <= sin x).
  { pose proof (sin_lower x ltac:(lra) ltac:(lra)) as Hs.
    assert (x ^ 3 <= 1e-15) by nra. lra. }
  assert (Hc1 : 0.9241 <= cos y1).
  { pose proof (cos_lower y1 ltac:(lra) ltac:(lra)) as Hc.
    assert (y1 ^ 2 <= 0.1518) by nra. lra. }
  assert (Hc2 : 0.9241 <= cos y2).
  { pose proof (cos_lower y2 ltac:(lra) ltac:(lra)) as Hc.
    assert (y2 ^ 2 <= 0.1518) by nra. lra. }
  assert (Hss : 3.0457e-12 <= sin x * sin x) by nra.
  assert (Hcc : 0.8539 <= cos y1 * cos y2) by nra.
  unfold Rsqr.
  replace (cos y1 * cos y2 * sin x * sin x)
    with ((cos y1 * cos y2) * (sin x * sin x)) by ring.
  nra.
Qed.

(** The two fixes of the scenario are a little more than 30 m apart
    (about 30.3 m). *)
Lemma getDistance_kgp_near : 30 <= getDistance kgp kgp_near.
Proof.
  pose proof (getDistance_lower kgp kgp_near (15 / 6371000)
                ltac:(lra) kgp_near_a_bound) as H.
  lra.
Qed.

Lemma sin_15_over_R : 2.35439e-6 <= sin (15 / 6371000).
Proof.
  pose proof PI_bounds as [Hp1 Hp2].
  set (k := 15 / 6371000).
  assert (Hk : 2.3544e-6 <= k <= 2.3545e-6) by (unfold k; lra).
  pose proof (sin_lower k ltac:(lra) ltac:(lra)) as Hs.
  assert (k ^ 3 <= 1e-15) by nra. lra.
Qed.

Lemma north60_a_bound :
  getDistance_a north60 north60_next < (sin (15 / 6371000))².
Proof.
  pose proof PI_bounds as [Hp1 Hp2].
  pose proof sin_15_over_R as Hsk.
  unfold getDistance_a, north60, north60_next, toRad; simpl.
  replace ((60 + 1 * 0.0002 - 60) * PI / 180 / 2) with (PI / 1800000) by lra.
  replace ((10 + 1 * 0.0002 - 10) * PI / 180 / 2) with (PI / 1800000) by lra.
  replace (60 * PI / 180) with (PI / 3) by lra.
  rewrite cos_PI3.
  set (x := PI / 1800000).
  set (y2 := (60 + 1 * 0.0002) * PI / 180).
  assert (Hx : 0 <= x <= 1.74562e-6) by (unfold x; lra).
  assert (Hs2 : 0 <= sin x <= 1.74562e-6).
  { pose proof (sin_le_self x ltac:(lra)).
    pose proof (sin_ge_0 x ltac:(lra) ltac:(lra)). lra. }
  pose proof (COS_bound y2) as [Hc2 Hc2'].
  assert (Hss : 0 <= sin x * sin x <= 3.0472e-12) by nra.
  replace (1 / 2 * cos y2 * sin x * sin x)
    with ((cos y2 / 2) * (sin x * sin x)) by field.
  unfold Rsqr.
  nra.
Qed.

(** At latitude 60 a step of 0.0002 degrees in both directions is
    shorter than 30 m (about 24.9 m). *)
Lemma getDistance_north60 : getDistance north60 north60_next < 30.
Proof.
  pose proof PI_bounds as [Hp1 Hp2].
  pose proof (getDistance_upper north60 north60_next (15 / 6371000)
                ltac:(lra) north60_a_bound) as H.
  lra.
Qed.

Lemma kgp_mid_a_bound :
  getDistance_a kgp kgp_mid < (sin (15 / 6371000))².
Proof.
  pose proof PI_bounds as [Hp1 Hp2].
  pose proof sin_15_over_R as Hsk.
  unfold getDistance_a, kgp, kgp_mid, toRad; simpl.
  replace ((22.3150 - 22.3149) * PI / 180 / 2) with (PI / 3600000) by lra.
  replace ((87.3106 - 87.3105) * PI / 180 / 2) with (PI / 3600000) by lra.
  set (x := PI / 3600000).
  set (y1 := 22.3149 * PI / 180).
  set (y2 := 22.3150 * PI / 180).
  assert (Hx : 0 <= x <= 8.7281e-7) by (unfold x; lra).
  assert (Hs2 : 0 <= sin x <= 8.7281e-7).
  { pose proof (sin_le_self x ltac:(lra)).
    pose proof (sin_ge_0 x ltac:(lra) ltac:(lra)). lra. }
  pose proof (COS_bound y1) as [Hc1 Hc1'].
  pose proof (COS_bound y2) as [Hc2 Hc2'].
  assert (Hss : 0 <= sin x * sin x <= 7.618e-13) by nra.
  assert (Hcc : cos y1 * cos y2 <= 1) by nra.
  replace (cos y1 * cos y2 * sin x * sin x)
    with ((cos y1 * cos y2) * (sin x * sin x)) by ring.
  unfold Rsqr.
  nra.
Qed.

(** [kgp_mid] is within 30 m of [kgp] (about 15.1 m). *)
Lemma getDistance_kgp_mid : getDistance kgp kgp_mid < 30.
Proof.
  pose proof PI_bounds as [Hp1 Hp2].
  pose proof (getDistance_upper kgp kgp_mid (15 / 6371000)
                ltac:(lra) kgp_mid_a_bound) as H.
  lra.
Qed.

(** ** The deduplication test *)

Lemma Rltb_true_iff (x y : R) : Rltb x y = true <-> x < y.
Proof.
  unfold Rltb. destruct (Rlt_dec x y); split; intros; try assumption;
    try reflexivity; try discriminate; contradiction.
Qed.

Lemma Rltb_false_iff (x y : R) : Rltb x y = false <-> y <= x.
Proof.
  unfold Rltb. destruct (Rlt_dec x y); split; intros; try reflexivity;
    try discriminate; lra.
Qed.

(** [isNew] holds exactly when every point of the array it reads is at
    least 30 m from the fix. *)
Lemma isNew_true_iff (l : list Coordinate) (c : Coordinate) :
  isNew l c = true <-> min_distance_ok l c.
Proof.
  unfold isNew, min_distance_ok.
  rewrite negb_true_iff.
  split.
  - intros H pt Hin.
    apply Rltb_false_iff.
    destruct (Rltb (getDistance pt c) 30) eqn:E; [| reflexivity].
    assert (Hex : existsb (fun pt => Rltb (getDistance pt c) 30) l = true).
    { apply existsb_exists. exists pt. split; assumption. }
    congruence.
  - intros H.
    destruct (existsb (fun pt => Rltb (getDistance pt c) 30) l) eqn:E;
      [| reflexivity].
    apply existsb_exists in E. destruct E as [pt [Hin Hlt]].
    apply Rltb_true_iff in Hlt. specialize (H pt Hin). lra.
Qed.

Lemma isNew_false_iff (l : list Coordinate) (c : Coordinate) :
  isNew l c = false <-> exists pt, In pt l /\ getDistance pt c < 30.
Proof.
  unfold isNew. rewrite negb_false_iff, existsb_exists.
  split; intros [pt [Hin H]]; exists pt; split; try assumption;
    now apply Rltb_true_iff.
Qed.

Lemma isNew_nil (c : Coordinate) : isNew [] c = true.
Proof. reflexivity. Qed.

Lemma not_pairwise_far_pair (p q : Coordinate) :
  getDistance p q < 30 -> ~ pairwise_far [p; q].
Proof.
  intros Hlt Hfar.
  specialize (Hfar 0%nat 1%nat p q ltac:(discriminate) eq_refl eq_refl).
  lra.
Qed.

Lemma pairwise_far_one (p : Coordinate) : pairwise_far [p].
Proof.
  intros i j a b Hij Hi Hj.
  destruct i as [| i]; destruct j as [| j]; try congruence; simpl in *;
    try (destruct i; discriminate); destruct j; discriminate.
Qed.

(** ** The fix callback *)

(** The AsyncStorage callback: the fix becomes the last-known coordinate,
    and it is appended exactly when [isNew] holds of the array the
    callback closed over. *)
Lemma async_onFix_spec (sub : Subscription) (c : Coordinate)
  (s : AsyncStorageVariant.Screen) :
  let s' := exec (AsyncStorageVariant.onFix sub c) s in
  AsyncStorageVariant.location s' = Some c /\
  AsyncStorageVariant.explored s' =
    (if isNew (cb_explored sub) c
     then AsyncStorageVariant.explored s ++ [c]
     else AsyncStorageVariant.explored s) /\
  completion (AsyncStorageVariant.onFix sub c) s = Normal tt.
Proof.
  unfold exec, completion, AsyncStorageVariant.onFix, bind.
  simpl. destruct (isNew (cb_explored sub) c); simpl; auto.
Qed.

(** The SQLite callback: as above, and the append also waits for the
    insert to succeed. *)
Lemma sqlite_onFix_spec (sub : Subscription) (c : Coordinate) (now : Z)
  (insert : Settled) (s : SQLiteVariant.Screen) :
  let s' := exec (SQLiteVariant.onFix sub c now insert) s in
  SQLiteVariant.location s' = Some c /\
  SQLiteVariant.explored s' =
    (if isNew (cb_explored sub) c
     then match insert with
          | Resolved => SQLiteVariant.explored s ++ [c]
          | Rejected => SQLiteVariant.explored s
          end
     else SQLiteVariant.explored s) /\
  SQLiteVariant.persisted s' =
    (if isNew (cb_explored sub) c
     then match insert with
          | Resolved => SQLiteVariant.persisted s ++ [c]
          | Rejected => SQLiteVariant.persisted s
          end
     else SQLiteVariant.persisted s) /\
  completion (SQLiteVariant.onFix sub c now insert) s = Normal tt.
Proof.
  unfold exec, completion, SQLiteVariant.onFix, bind, tryCatch,
    SQLiteVariant.persisted.
  simpl. destruct (isNew (cb_explored sub) c); simpl; auto.
  destruct insert; simpl; repeat split; auto.
  rewrite map_app. destruct c; reflexivity.
Qed.

Lemma sqlite_run_cons
  (order : list SQLiteVariant.Row -> list SQLiteVariant.Row)
  (ev : SQLiteVariant.Event) (evs : list SQLiteVariant.Event)
  (s : SQLiteVariant.Screen) :
  SQLiteVariant.run order (ev :: evs) s =
  SQLiteVariant.run order evs (exec (SQLiteVariant.step order ev) s).
Proof. reflexivity. Qed.

Lemma async_run_cons (ev : AsyncStorageVariant.Event)
  (evs : list AsyncStorageVariant.Event) (s : AsyncStorageVariant.Screen) :
  AsyncStorageVariant.run (ev :: evs) s =
  AsyncStorageVariant.run evs (exec (AsyncStorageVariant.step ev) s).
Proof. reflexivity. Qed.

(** A run of fixes under one subscription appends exactly the fixes that
    [isNew] accepts against the array the callback closed over; the
    points appended meanwhile are not consulted. *)
Lemma sqlite_fixes_spec
  (order : list SQLiteVariant.Row -> list SQLiteVariant.Row)
  (sub : Subscription) (now : Coordinate -> Z) (cs : list Coordinate) :
  forall s : SQLiteVariant.Screen,
    SQLiteVariant.watcher s = Some sub ->
    let s' :=
      SQLiteVariant.run order
        (map (fun c => SQLiteVariant.Fix c (now c) Resolved) cs) s in
    SQLiteVariant.watcher s' = Some sub /\
    SQLiteVariant.explored s' =
      SQLiteVariant.explored s ++ filter (isNew (cb_explored sub)) cs.
Proof.
  induction cs as [| c cs IH]; intros s Hw; cbv zeta.
  - simpl. rewrite app_nil_r. auto.
  - rewrite map_cons, sqlite_run_cons.
    set (s1 := exec (SQLiteVariant.step order
                       (SQLiteVariant.Fix c (now c) Resolved)) s).
    assert (H1 : SQLiteVariant.watcher s1 = Some sub /\
                 SQLiteVariant.explored s1 =
                   SQLiteVariant.explored s ++
                   (if isNew (cb_explored sub) c then [c] else [])).
    { unfold s1, exec. simpl. unfold SQLiteVariant.deliver. rewrite Hw.
      unfold SQLiteVariant.onFix, bind, tryCatch. simpl.
      destruct (isNew (cb_explored sub) c); simpl;
        rewrite ?app_nil_r; auto. }
    destruct H1 as [Hw1 He1].
    destruct (IH s1 Hw1) as [Hw' He'].
    split; [exact Hw' |].
    rewrite He', He1, <- app_assoc. simpl.
    destruct (isNew (cb_explored sub) c); reflexivity.
Qed.

Lemma async_fixes_spec (sub : Subscription) (write : Coordinate -> Settled)
  (cs : list Coordinate) :
  forall s : AsyncStorageVariant.Screen,
    AsyncStorageVariant.watcher s = Some sub ->
    let s' :=
      AsyncStorageVariant.run
        (map (fun c => AsyncStorageVariant.Fix c (write c)) cs) s in
    AsyncStorageVariant.watcher s' = Some sub /\
    AsyncStorageVariant.explored s' =
      AsyncStorageVariant.explored s ++ filter (isNew (cb_explored sub)) cs.
Proof.
  induction cs as [| c cs IH]; intros s Hw; cbv zeta.
  - simpl. rewrite app_nil_r. auto.
  - rewrite map_cons, async_run_cons.
    set (s1 := exec (AsyncStorageVariant.step
                       (AsyncStorageVariant.Fix c (write c))) s).
    assert (H1 : AsyncStorageVariant.watcher s1 = Some sub /\
                 AsyncStorageVariant.explored s1 =
                   AsyncStorageVariant.explored s ++
                   (if isNew (cb_explored sub) c then [c] else [])).
    { unfold s1, exec. simpl. rewrite Hw.
      unfold AsyncStorageVariant.onFix, bind. simpl.
      destruct (isNew (cb_explored sub) c); simpl;
        [destruct (write c) |]; simpl; rewrite ?app_nil_r; auto. }
    destruct H1 as [Hw1 He1].
    destruct (IH s1 Hw1) as [Hw' He'].
    split; [exact Hw' |].
    rewrite He', He1, <- app_assoc. simpl.
    destruct (isNew (cb_explored sub) c); reflexivity.
Qed.

(** With tracking started on an empty ExploredSet, every fix is
    appended. *)
Lemma sqlite_fixes_from_empty
  (order : list SQLiteVariant.Row -> list SQLiteVariant.Row)
  (now : Coordinate -> Z) (cs : list Coordinate) (d : SQLiteVariant.Db) :
  SQLiteVariant.explored
    (SQLiteVariant.run order
       (SQLiteVariant.StartTracking granted ::
        map (fun c => SQLiteVariant.Fix c (now c) Resolved) cs)
       (SQLiteVariant.mount d)) = cs.
Proof.
  rewrite sqlite_run_cons.
  destruct (sqlite_fixes_spec order (mkSubscription []) now cs
              (exec (SQLiteVariant.step order
                       (SQLiteVariant.StartTracking granted))
                    (SQLiteVariant.mount d)) eq_refl) as [_ He].
  rewrite He. clear He. simpl.
  induction cs as [| c cs IH]; [reflexivity |].
  simpl. now rewrite IH.
Qed.

(** What the test does ensure: a point appended under a subscription is
    at least 30 m from every point ExploredSet held when tracking
    started. *)
Lemma sqlite_appended_far_from_snapshot
  (order : list SQLiteVariant.Row -> list SQLiteVariant.Row)
  (sub : Subscription) (now : Coordinate -> Z) (cs : list Coordinate)
  (s : SQLiteVariant.Screen) :
  SQLiteVariant.watcher s = Some sub ->
  exists added,
    SQLiteVariant.explored
      (SQLiteVariant.run order
         (map (fun c => SQLiteVariant.Fix c (now c) Resolved) cs) s)
    = SQLiteVariant.explored s ++ added /\
    forall c, In c added -> min_distance_ok (cb_explored sub) c.
Proof.
  intros Hw.
  destruct (sqlite_fixes_spec order sub now cs s Hw) as [_ He].
  exists (filter (isNew (cb_explored sub)) cs).
  split; [exact He |].
  intros c Hin. apply filter_In in Hin. destruct Hin as [_ Hnew].
  now apply isNew_true_iff.
Qed.

(** C1: with tracking started on an empty ExploredSet, the fixes [kgp]
    and [kgp_mid], less than 30 m apart, are both appended: the callback
    tests each fix against the array it closed over when tracking
    started, not against the current ExploredSet, and the points of
    ExploredSet are then not pairwise 30 m apart.  Both revisions. *)
Theorem fixes_break_pairwise_distance
  (order : list SQLiteVariant.Row -> list SQLiteVariant.Row)
  (t1 t2 : Z) (w1 w2 : Settled) :
  let s :=
    SQLiteVariant.run order
      [SQLiteVariant.StartTracking granted;
       SQLiteVariant.Fix kgp t1 Resolved;
       SQLiteVariant.Fix kgp_mid t2 Resolved]
      (SQLiteVariant.mount SQLiteVariant.empty_db) in
  let s' :=
    AsyncStorageVariant.run
      [AsyncStorageVariant.StartTracking granted;
       AsyncStorageVariant.Fix kgp w1;
       AsyncStorageVariant.Fix kgp_mid w2]
      (AsyncStorageVariant.mount None) in
  SQLiteVariant.explored s = [kgp; kgp_mid] /\
  ~ pairwise_far (SQLiteVariant.explored s) /\
  AsyncStorageVariant.explored s' = [kgp; kgp_mid] /\
  ~ pairwise_far (AsyncStorageVariant.explored s').
Proof.
  assert (Hs : SQLiteVariant.explored
            (SQLiteVariant.run order
               [SQLiteVariant.StartTracking granted;
                SQLiteVariant.Fix kgp t1 Resolved;
                SQLiteVariant.Fix kgp_mid t2 Resolved]
               (SQLiteVariant.mount SQLiteVariant.empty_db))
          = [kgp; kgp_mid]) by reflexivity.
  assert (Hs' : AsyncStorageVariant.explored
            (AsyncStorageVariant.run
               [AsyncStorageVariant.StartTracking granted;
                AsyncStorageVariant.Fix kgp w1;
                AsyncStorageVariant.Fix kgp_mid w2]
               (AsyncStorageVariant.mount None))
          = [kgp; kgp_mid]).
  { destruct w1, w2; reflexivity. }
  cbv zeta. rewrite Hs, Hs'.
  repeat split; auto using not_pairwise_far_pair, getDistance_kgp_mid.
Qed.

(** C2: the same coordinate delivered as two consecutive fixes after
    tracking started on an empty ExploredSet is stored twice, in memory
    and in the store, in both revisions: the second fix is tested against
    the empty array the callback closed over. *)
Theorem same_fix_twice_is_stored_twice
  (order : list SQLiteVariant.Row -> list SQLiteVariant.Row)
  (c : Coordinate) (t1 t2 : Z) :
  let s :=
    SQLiteVariant.run order
      [SQLiteVariant.StartTracking granted;
       SQLiteVariant.Fix c t1 Resolved;
       SQLiteVariant.Fix c t2 Resolved]
      (SQLiteVariant.mount SQLiteVariant.empty_db) in
  let s' :=
    AsyncStorageVariant.run
      [AsyncStorageVariant.StartTracking granted;
       AsyncStorageVariant.Fix c Resolved;
       AsyncStorageVariant.Fix c Resolved]
      (AsyncStorageVariant.mount None) in
  SQLiteVariant.explored s = [c; c] /\
  SQLiteVariant.persisted s = [c; c] /\
  AsyncStorageVariant.explored s' = [c; c] /\
  AsyncStorageVariant.persisted s' = [c; c] /\
  length (SQLiteVariant.explored s) = 2%nat /\
  length (AsyncStorageVariant.explored s') = 2%nat.
Proof.
  destruct c as [lat lon].
  cbv zeta. repeat split; reflexivity.
Qed.

(** C3: after tracking started on an empty ExploredSet and the fix [kgp]
    was appended, the fix [kgp_mid] is less than 30 m from the only point
    of the current ExploredSet, and yet it is appended, in both
    revisions; the last-known coordinate is updated. *)
Theorem close_fix_is_appended
  (order : list SQLiteVariant.Row -> list SQLiteVariant.Row)
  (t1 t2 : Z) (w1 w2 : Settled) :
  let s1 :=
    SQLiteVariant.run order
      [SQLiteVariant.StartTracking granted;
       SQLiteVariant.Fix kgp t1 Resolved]
      (SQLiteVariant.mount SQLiteVariant.empty_db) in
  let s2 := exec (SQLiteVariant.step order
                    (SQLiteVariant.Fix kgp_mid t2 Resolved)) s1 in
  let a1 :=
    AsyncStorageVariant.run
      [AsyncStorageVariant.StartTracking granted;
       AsyncStorageVariant.Fix kgp w1]
      (AsyncStorageVariant.mount None) in
  let a2 := exec (AsyncStorageVariant.step
                    (AsyncStorageVariant.Fix kgp_mid w2)) a1 in
  (SQLiteVariant.explored s1 = [kgp] /\
   ~ min_distance_ok (SQLiteVariant.explored s1) kgp_mid /\
   SQLiteVariant.explored s2 = [kgp; kgp_mid] /\
   SQLiteVariant.location s2 = Some kgp_mid) /\
  (AsyncStorageVariant.explored a1 = [kgp] /\
   ~ min_distance_ok (AsyncStorageVariant.explored a1) kgp_mid /\
   AsyncStorageVariant.explored a2 = [kgp; kgp_mid] /\
   AsyncStorageVariant.location a2 = Some kgp_mid).
Proof.
  assert (Hclose : ~ min_distance_ok [kgp] kgp_mid).
  { intros H. specialize (H kgp (or_introl eq_refl)).
    pose proof getDistance_kgp_mid. lra. }
  cbv zeta. split.
  - repeat split; try reflexivity. exact Hclose.
  - destruct w1, w2; repeat split; try reflexivity; exact Hclose.
Qed.

(** ** The scenario at about 30.3 m *)

Lemma isNew_kgp_near : isNew [kgp] kgp_near = true.
Proof.
  apply isNew_true_iff. intros pt [<- | []].
  exact getDistance_kgp_near.
Qed.

(** C7, as stated, fails: the two coordinates are not strictly less than
    30 m apart, and the scenario does not leave exactly one point. *)
Lemma kgp_near_not_revisited :
  ~ (getDistance kgp kgp_near < 30 /\
     length (AsyncStorageVariant.explored
               (AsyncStorageVariant.run
                  [AsyncStorageVariant.StartTracking granted;
                   AsyncStorageVariant.Fix kgp Resolved;
                   AsyncStorageVariant.Fix kgp_near Resolved]
                  (AsyncStorageVariant.mount None))) = 1%nat).
Proof.
  intros [H _]. pose proof getDistance_kgp_near. lra.
Qed.

(** C7, amended: the haversine distance between (22.3149, 87.3105) and
    (22.3151, 87.3107) is at least 30 m, so the test classifies the
    second fix as new even against an array that holds the first, and
    the two fixes leave two stored points, in both revisions. *)
Theorem kgp_near_is_new
  (order : list SQLiteVariant.Row -> list SQLiteVariant.Row) (t1 t2 : Z) :
  30 <= getDistance kgp kgp_near /\
  isNew [kgp] kgp_near = true /\
  AsyncStorageVariant.explored
    (AsyncStorageVariant.run
       [AsyncStorageVariant.StartTracking granted;
        AsyncStorageVariant.Fix kgp Resolved;
        AsyncStorageVariant.Fix kgp_near Resolved]
       (AsyncStorageVariant.mount None)) = [kgp; kgp_near] /\
  SQLiteVariant.persisted
    (SQLiteVariant.run order
       [SQLiteVariant.StartTracking granted;
        SQLiteVariant.Fix kgp t1 Resolved;
        SQLiteVariant.Fix kgp_near t2 Resolved]
       (SQLiteVariant.mount SQLiteVariant.empty_db)) = [kgp; kgp_near].
Proof.
  repeat split.
  - exact getDistance_kgp_near.
  - exact isNew_kgp_near.
Qed.

(** ** reset *)

(** No handler of the SQLite [reset] throws: the [catch] clause takes
    every rejection. *)
Lemma sqlite_reset_completes (button : SQLiteVariant.AlertButton)
  (delete : Settled) (s : SQLiteVariant.Screen) :
  completion (SQLiteVariant.reset button delete) s = Normal tt.
Proof. destruct button, delete; reflexivity. Qed.

Lemma async_reset_completes (remove : Settled)
  (s : AsyncStorageVariant.Screen) :
  completion (AsyncStorageVariant.reset remove) s = Normal tt.
Proof. destruct remove; reflexivity. Qed.

(** C5, as stated, fails in the AsyncStorage revision: with one point
    explored and stored, a reset whose [removeItem] is rejected does not
    leave the in-memory ExploredSet at its value before the call. *)
Lemma async_reset_clears_on_failure :
  let s :=
    AsyncStorageVariant.run
      [AsyncStorageVariant.StartTracking granted;
       AsyncStorageVariant.Fix kgp Resolved]
      (AsyncStorageVariant.mount None) in
  ~ (AsyncStorageVariant.explored
       (exec (AsyncStorageVariant.reset Rejected) s)
     = AsyncStorageVariant.explored s).
Proof. cbv zeta. discriminate. Qed.

(** C5, amended: the confirmed reset of the SQLite revision is
    all-or-nothing (a successful delete leaves ExploredSet and the table
    empty, a failed one leaves ExploredSet and the table as they were);
    the reset of the AsyncStorage revision clears ExploredSet whatever
    becomes of the removal, and leaves the store empty when the removal
    succeeds, also after the persistence effect that follows. *)
Theorem reset_all_or_nothing :
  (forall s : SQLiteVariant.Screen,
     let ok := exec (SQLiteVariant.reset SQLiteVariant.Clear Resolved) s in
     let ko := exec (SQLiteVariant.reset SQLiteVariant.Clear Rejected) s in
     SQLiteVariant.explored ok = [] /\
     SQLiteVariant.persisted ok = [] /\
     SQLiteVariant.explored ko = SQLiteVariant.explored s /\
     SQLiteVariant.db ko = SQLiteVariant.db s) /\
  (forall (s : AsyncStorageVariant.Screen) (remove write : Settled),
     AsyncStorageVariant.explored
       (exec (AsyncStorageVariant.reset remove) s) = [] /\
     AsyncStorageVariant.persisted
       (exec (AsyncStorageVariant.reset Resolved) s) = [] /\
     AsyncStorageVariant.persisted
       (exec (AsyncStorageVariant.step
                (AsyncStorageVariant.Reset Resolved write)) s) = []).
Proof.
  split.
  - intros s. cbv zeta. repeat split.
  - intros s remove write. destruct remove, write; repeat split.
Qed.

(** C8: reset is idempotent.  SQLite revision: when the first reset goes
    through (confirmed, delete successful), ExploredSet is empty after it
    and after a second reset, whatever button and outcome the second has,
    and neither call throws; a confirmed reset on an empty ExploredSet
    does not throw, leaves it empty and sends the delete.  AsyncStorage
    revision: the same without conditions, the removal being called each
    time. *)
Theorem reset_twice :
  (forall (s : SQLiteVariant.Screen) (button2 : SQLiteVariant.AlertButton)
          (delete2 : Settled),
     let s1 := exec (SQLiteVariant.reset SQLiteVariant.Clear Resolved) s in
     let s2 := exec (SQLiteVariant.reset button2 delete2) s1 in
     SQLiteVariant.explored s1 = [] /\
     SQLiteVariant.explored s2 = [] /\
     completion (SQLiteVariant.reset SQLiteVariant.Clear Resolved) s
       = Normal tt /\
     completion (SQLiteVariant.reset button2 delete2) s1 = Normal tt) /\
  (forall (s : SQLiteVariant.Screen) (delete : Settled),
     SQLiteVariant.explored s = [] ->
     let s1 := exec (SQLiteVariant.reset SQLiteVariant.Clear delete) s in
     completion (SQLiteVariant.reset SQLiteVariant.Clear delete) s
       = Normal tt /\
     SQLiteVariant.explored s1 = [] /\
     SQLiteVariant.db_calls s1
       = SQLiteVariant.db_calls s ++ [SQLiteVariant.DeleteAll]) /\
  (forall (s : AsyncStorageVariant.Screen) (remove1 remove2 : Settled),
     let s1 := exec (AsyncStorageVariant.reset remove1) s in
     let s2 := exec (AsyncStorageVariant.reset remove2) s1 in
     AsyncStorageVariant.explored s1 = [] /\
     AsyncStorageVariant.explored s2 = [] /\
     completion (AsyncStorageVariant.reset remove1) s = Normal tt /\
     completion (AsyncStorageVariant.reset remove2) s1 = Normal tt /\
     AsyncStorageVariant.storage_calls s1
       = AsyncStorageVariant.storage_calls s
           ++ [AsyncStorageVariant.RemoveItem] /\
     AsyncStorageVariant.storage_calls s2
       = AsyncStorageVariant.storage_calls s1
           ++ [AsyncStorageVariant.RemoveItem]).
Proof.
  split; [| split].
  - intros s button2 delete2. cbv zeta.
    destruct button2, delete2; repeat split.
  - intros s delete Hempty. cbv zeta.
    destruct delete; simpl; repeat split; assumption.
  - intros s remove1 remove2. cbv zeta.
    destruct remove1, remove2; repeat split.
Qed.

Lemma reset_twice_witness :
  SQLiteVariant.explored (SQLiteVariant.mount SQLiteVariant.empty_db) = [] /\
  SQLiteVariant.db_calls
    (exec (SQLiteVariant.reset SQLiteVariant.Clear Resolved)
          (SQLiteVariant.mount SQLiteVariant.empty_db))
  = [SQLiteVariant.DeleteAll].
Proof.
  split; [reflexivity |].
  destruct reset_twice as [_ [H _]].
  destruct (H (SQLiteVariant.mount SQLiteVariant.empty_db) Resolved eq_refl)
    as [_ [_ Hcalls]].
  exact Hcalls.
Defined.

(** ** Inserts *)

(** C6, as stated, fails in the AsyncStorage revision: a new fix whose
    [setItem] is rejected is in memory and not in the store. *)
Lemma async_unpersisted_point :
  let s :=
    AsyncStorageVariant.run
      [AsyncStorageVariant.StartTracking granted;
       AsyncStorageVariant.Fix kgp Rejected]
      (AsyncStorageVariant.mount None) in
  ~ (AsyncStorageVariant.explored s = AsyncStorageVariant.persisted s).
Proof. cbv zeta. discriminate. Qed.

(** C6, amended.  SQLite revision: for a fix classified new, a rejected
    insert leaves ExploredSet and the table as they were, a successful
    one appends the fix to both, so the callback keeps ExploredSet equal
    to the persisted points.  AsyncStorage revision: the fix is appended
    in memory before the write and stays whatever the write's outcome; a
    rejected write leaves the store as it was. *)
Theorem insert_gates_append (sub : Subscription) (c : Coordinate) :
  isNew (cb_explored sub) c = true ->
  (forall (s : SQLiteVariant.Screen) (now : Z),
     let ko := exec (SQLiteVariant.onFix sub c now Rejected) s in
     let ok := exec (SQLiteVariant.onFix sub c now Resolved) s in
     SQLiteVariant.explored ko = SQLiteVariant.explored s /\
     SQLiteVariant.db ko = SQLiteVariant.db s /\
     SQLiteVariant.explored ok = SQLiteVariant.explored s ++ [c] /\
     SQLiteVariant.persisted ok = SQLiteVariant.persisted s ++ [c]) /\
  (forall (s : SQLiteVariant.Screen) (now : Z) (insert : Settled),
     SQLiteVariant.explored s = SQLiteVariant.persisted s ->
     let s' := exec (SQLiteVariant.onFix sub c now insert) s in
     SQLiteVariant.explored s' = SQLiteVariant.persisted s') /\
  (forall (s : AsyncStorageVariant.Screen) (write : Settled),
     AsyncStorageVariant.watcher s = Some sub ->
     let s' := exec (AsyncStorageVariant.step
                       (AsyncStorageVariant.Fix c write)) s in
     AsyncStorageVariant.explored s'
       = AsyncStorageVariant.explored s ++ [c] /\
     (write = Rejected ->
      AsyncStorageVariant.storage s' = AsyncStorageVariant.storage s)).
Proof.
  intros Hnew. split; [| split].
  - intros s now. cbv zeta.
    unfold exec, SQLiteVariant.onFix, bind, tryCatch, SQLiteVariant.persisted.
    simpl. rewrite Hnew. simpl. repeat split.
    rewrite map_app. destruct c; reflexivity.
  - intros s now insert Heq. cbv zeta.
    destruct (sqlite_onFix_spec sub c now insert s) as [_ [He [Hp _]]].
    rewrite He, Hp, Hnew. destruct insert; congruence.
  - intros s write Hw. cbv zeta.
    unfold exec, AsyncStorageVariant.step. rewrite Hw.
    unfold AsyncStorageVariant.onFix, bind. simpl. rewrite Hnew.
    destruct write; simpl; split; auto; discriminate.
Qed.

Lemma insert_gates_append_witness :
  isNew (cb_explored (mkSubscription [])) kgp = true /\
  SQLiteVariant.explored
    (exec (SQLiteVariant.onFix (mkSubscription []) kgp 0 Rejected)
          (SQLiteVariant.mount SQLiteVariant.empty_db)) = [] /\
  SQLiteVariant.explored
    (exec (SQLiteVariant.onFix (mkSubscription []) kgp 0 Resolved)
          (SQLiteVariant.mount SQLiteVariant.empty_db)) = [kgp].
Proof.
  split; [reflexivity |].
  destruct (insert_gates_append (mkSubscription []) kgp eq_refl)
    as [H _].
  destruct (H (SQLiteVariant.mount SQLiteVariant.empty_db) 0%Z)
    as [Hko [_ [Hok _]]].
  split; [exact Hko | exact Hok].
Defined.

(** ** The simulated walk *)

Lemma or_else_nonzero (v fallback : R) :
  v <> 0 -> SQLiteVariant.or_else (Some v) fallback = v.
Proof.
  intros Hv. unfold SQLiteVariant.or_else.
  destruct (Req_dec_T v 0); [contradiction | reflexivity].
Qed.

(** The loop of inserts, when every insert succeeds: the points are
    appended to the table and nothing else changes. *)
Lemma insertEach_resolved (inserts : nat -> Settled)
  (points : list Coordinate) :
  (forall i, inserts i = Resolved) ->
  forall (i : nat) (clock : nat -> Z) (s : SQLiteVariant.Screen),
    let r := SQLiteVariant.insertEach points i clock inserts s in
    snd r = Normal tt /\
    SQLiteVariant.explored (fst r) = SQLiteVariant.explored s /\
    SQLiteVariant.location (fst r) = SQLiteVariant.location s /\
    SQLiteVariant.watcher (fst r) = SQLiteVariant.watcher s /\
    SQLiteVariant.persisted (fst r) = SQLiteVariant.persisted s ++ points.
Proof.
  intros Hall.
  induction points as [| p rest IH]; intros i clock s; cbv zeta.
  - simpl. unfold SQLiteVariant.persisted. rewrite app_nil_r. auto.
  - simpl. unfold bind, SQLiteVariant.runInsert. rewrite Hall.
    specialize (IH (S i) clock
      (SQLiteVariant.with_db
         (SQLiteVariant.insert_row (latitude p) (longitude p) (clock i))
         (SQLiteVariant.called
            (SQLiteVariant.InsertPoint (latitude p) (longitude p) (clock i))
            s))).
    cbv zeta in IH.
    destruct IH as [Hc [He [Hl [Hw Hp]]]].
    repeat split; try assumption.
    rewrite Hp. unfold SQLiteVariant.persisted. simpl.
    rewrite map_app. simpl. rewrite <- app_assoc.
    destruct p; reflexivity.
Qed.

(** The simulated walk, when its five inserts succeed, appends its points
    to the table and to ExploredSet, whatever ExploredSet holds. *)
Lemma simulateWalk_resolved (clock : nat -> Z) (inserts : nat -> Settled)
  (s : SQLiteVariant.Screen) :
  (forall i, inserts i = Resolved) ->
  let s' := exec (SQLiteVariant.simulateWalk clock inserts) s in
  let points :=
    SQLiteVariant.newPoints (SQLiteVariant.baseLat s)
                            (SQLiteVariant.baseLon s) in
  SQLiteVariant.explored s' = SQLiteVariant.explored s ++ points /\
  SQLiteVariant.persisted s' = SQLiteVariant.persisted s ++ points.
Proof.
  intros Hall. cbv zeta.
  unfold exec, SQLiteVariant.simulateWalk, tryCatch, bind.
  pose proof (insertEach_resolved inserts
                (SQLiteVariant.newPoints (SQLiteVariant.baseLat s)
                                         (SQLiteVariant.baseLon s))
                Hall 0 clock s) as H.
  cbv zeta in H.
  destruct (SQLiteVariant.insertEach _ 0 clock inserts s)
    as [s1 [[] |]]; simpl in H; destruct H as [Hc [He [_ [_ Hp]]]];
    [| discriminate].
  simpl. rewrite He. split; [reflexivity | exact Hp].
Qed.

(** C10: the simulated walk generates five points 0.0002 degrees apart
    in latitude and longitude and, when its inserts succeed, appends them
    to the table and to ExploredSet whatever ExploredSet holds; after one
    fix at latitude 60, whose ExploredSet is pairwise 30 m apart, it
    leaves in ExploredSet two points less than 30 m apart. *)
Theorem simulateWalk_skips_deduplication :
  (forall lat lon : R,
     SQLiteVariant.newPoints lat lon =
     [mkCoordinate (lat + INR 0 * 0.0002) (lon + INR 0 * 0.0002);
      mkCoordinate (lat + INR 1 * 0.0002) (lon + INR 1 * 0.0002);
      mkCoordinate (lat + INR 2 * 0.0002) (lon + INR 2 * 0.0002);
      mkCoordinate (lat + INR 3 * 0.0002) (lon + INR 3 * 0.0002);
      mkCoordinate (lat + INR 4 * 0.0002) (lon + INR 4 * 0.0002)]) /\
  (forall (clock : nat -> Z) (s : SQLiteVariant.Screen),
     let s' := exec (SQLiteVariant.simulateWalk clock (fun _ => Resolved)) s in
     let points :=
       SQLiteVariant.newPoints (SQLiteVariant.baseLat s)
                               (SQLiteVariant.baseLon s) in
     SQLiteVariant.explored s' = SQLiteVariant.explored s ++ points /\
     SQLiteVariant.persisted s' = SQLiteVariant.persisted s ++ points) /\
  (exists s : SQLiteVariant.Screen,
     s = SQLiteVariant.run (fun l => l)
           [SQLiteVariant.StartTracking granted;
            SQLiteVariant.Fix north60 0 Resolved]
           (SQLiteVariant.mount SQLiteVariant.empty_db) /\
     pairwise_far (SQLiteVariant.explored s) /\
     let s' := exec (SQLiteVariant.simulateWalk (fun _ => 0%Z)
                       (fun _ => Resolved)) s in
     exists (i j : nat) (p q : Coordinate),
       i <> j /\
       nth_error (SQLiteVariant.explored s') i = Some p /\
       nth_error (SQLiteVariant.explored s') j = Some q /\
       getDistance p q < 30).
Proof.
  split; [| split].
  - intros lat lon. reflexivity.
  - intros clock s.
    exact (simulateWalk_resolved clock (fun _ => Resolved) s
             (fun _ => eq_refl)).
  - eexists. split; [reflexivity |].
    split; [apply pairwise_far_one |].
    cbv zeta.
    exists 0%nat, 2%nat, north60, north60_next.
    destruct (simulateWalk_resolved (fun _ => 0%Z) (fun _ => Resolved)
                (SQLiteVariant.run (fun l => l)
                   [SQLiteVariant.StartTracking granted;
                    SQLiteVariant.Fix north60 0 Resolved]
                   (SQLiteVariant.mount SQLiteVariant.empty_db))
                (fun _ => eq_refl))
      as [He _].
    rewrite He.
    assert (Hlat : SQLiteVariant.baseLat
              (SQLiteVariant.run (fun l => l)
                 [SQLiteVariant.StartTracking granted;
                  SQLiteVariant.Fix north60 0 Resolved]
                 (SQLiteVariant.mount SQLiteVariant.empty_db)) = 60).
    { apply or_else_nonzero. lra. }
    assert (Hlon : SQLiteVariant.baseLon
              (SQLiteVariant.run (fun l => l)
                 [SQLiteVariant.StartTracking granted;
                  SQLiteVariant.Fix north60 0 Resolved]
                 (SQLiteVariant.mount SQLiteVariant.empty_db)) = 10).
    { apply or_else_nonzero. lra. }
    rewrite Hlat, Hlon.
    repeat split; try discriminate.
    exact getDistance_north60.
Qed.

(** ** Reload *)

Section Reload.

Variable order : list SQLiteVariant.Row -> list SQLiteVariant.Row.
Hypothesis order_perm : forall l, Permutation (order l) l.

Lemma getAllAsync_resolved (s : SQLiteVariant.Screen) :
  SQLiteVariant.getAllAsync order Resolved s =
  (SQLiteVariant.called SQLiteVariant.SelectAll s,
   Normal (map SQLiteVariant.coordinate_of
             (order (SQLiteVariant.rows (SQLiteVariant.db s))))).
Proof. reflexivity. Qed.

Lemma read_is_permutation (s : SQLiteVariant.Screen) :
  Permutation
    (map SQLiteVariant.coordinate_of
       (order (SQLiteVariant.rows (SQLiteVariant.db s))))
    (SQLiteVariant.persisted s).
Proof. apply Permutation_map, order_perm. Qed.

(** A reload whose read succeeds puts the read rows in ExploredSet and
    leaves the table alone. *)
Lemma syncWeb_resolved (s : SQLiteVariant.Screen) :
  let s' := exec (SQLiteVariant.syncWeb order Resolved) s in
  SQLiteVariant.explored s' =
    map SQLiteVariant.coordinate_of
        (order (SQLiteVariant.rows (SQLiteVariant.db s))) /\
  SQLiteVariant.db s' = SQLiteVariant.db s.
Proof. cbv zeta. split; reflexivity. Qed.

(** A reload whose read fails leaves ExploredSet empty. *)
Lemma syncWeb_rejected (s : SQLiteVariant.Screen) :
  SQLiteVariant.explored (exec (SQLiteVariant.syncWeb order Rejected) s) = [].
Proof. reflexivity. Qed.

(** The initial load, when it succeeds, makes ExploredSet mirror the
    table. *)
Lemma initDB_mirrored (d : SQLiteVariant.Db) :
  SQLiteVariant.mirrored
    (exec (SQLiteVariant.initDB order Resolved Resolved)
          (SQLiteVariant.mount d)).
Proof.
  unfold SQLiteVariant.mirrored. simpl.
  apply Permutation_map, order_perm.
Qed.

Lemma step_mirrored (ev : SQLiteVariant.Event) (s : SQLiteVariant.Screen) :
  SQLiteVariant.io_ok ev ->
  SQLiteVariant.mirrored s ->
  SQLiteVariant.mirrored (exec (SQLiteVariant.step order ev) s).
Proof.
  unfold SQLiteVariant.mirrored.
  intros Hok Hm. destruct ev as
    [create select | status | | c now insert | button delete
    | clock inserts | select]; simpl in Hok; unfold SQLiteVariant.step.
  - destruct create, select; try exact Hm.
    exact (read_is_permutation s).
  - destruct status; exact Hm.
  - exact Hm.
  - unfold exec, SQLiteVariant.deliver.
    destruct (SQLiteVariant.watcher s) as [sub |]; [| exact Hm].
    destruct (sqlite_onFix_spec sub c now insert s) as [_ [He [Hp _]]].
    fold (exec (SQLiteVariant.onFix sub c now insert) s).
    rewrite He, Hp.
    destruct (isNew (cb_explored sub) c), insert; try exact Hm.
    now apply Permutation_app_tail.
  - destruct button, delete; try exact Hm.
    apply Permutation_refl.
  - destruct (simulateWalk_resolved clock inserts s Hok) as [He Hp].
    rewrite He, Hp. now apply Permutation_app_tail.
  - subst select. exact (read_is_permutation s).
Qed.

Lemma run_mirrored (evs : list SQLiteVariant.Event) :
  forall s : SQLiteVariant.Screen,
    Forall SQLiteVariant.io_ok evs ->
    SQLiteVariant.mirrored s ->
    SQLiteVariant.mirrored (SQLiteVariant.run order evs s).
Proof.
  induction evs as [| ev evs IH]; intros s Hok Hm; [exact Hm |].
  inversion Hok as [| ? ? Hev Hevs]; subst.
  simpl. apply IH; [assumption |].
  now apply step_mirrored.
Qed.

(** C9: from a screen whose ExploredSet mirrors the table, after any
    sequence of events in which no bulk insert and no reload fails, a
    reload whose read succeeds replaces ExploredSet by the coordinates of
    all the rows of the table, in the order the store returns them, and
    that is a permutation of the ExploredSet held before the reload. *)
Theorem reload_round_trip (s0 : SQLiteVariant.Screen)
  (evs : list SQLiteVariant.Event) :
  SQLiteVariant.mirrored s0 ->
  Forall SQLiteVariant.io_ok evs ->
  let s := SQLiteVariant.run order evs s0 in
  let s' := exec (SQLiteVariant.syncWeb order Resolved) s in
  SQLiteVariant.explored s' =
    map SQLiteVariant.coordinate_of
        (order (SQLiteVariant.rows (SQLiteVariant.db s))) /\
  SQLiteVariant.persisted s' = SQLiteVariant.persisted s /\
  Permutation (SQLiteVariant.explored s') (SQLiteVariant.explored s).
Proof.
  intros Hm Hok. cbv zeta.
  pose proof (run_mirrored evs s0 Hok Hm) as Hrun.
  destruct (syncWeb_resolved (SQLiteVariant.run order evs s0)) as [He Hd].
  rewrite He. unfold SQLiteVariant.persisted at 1. rewrite Hd.
  repeat split.
  eapply Permutation_trans; [apply read_is_permutation |].
  symmetry. exact Hrun.
Qed.

End Reload.

Lemma reload_round_trip_witness :
  let d := SQLiteVariant.mkDb [SQLiteVariant.mkRow 1 22.3149 87.3105 0] 1 in
  let s0 := exec (SQLiteVariant.initDB (@rev _) Resolved Resolved)
                 (SQLiteVariant.mount d) in
  let evs :=
    [SQLiteVariant.StartTracking granted;
     SQLiteVariant.Fix kgp_near 5 Resolved;
     SQLiteVariant.SimulateWalk (fun _ => 7%Z) (fun _ => Resolved)] in
  let s := SQLiteVariant.run (@rev _) evs s0 in
  (forall l : list SQLiteVariant.Row, Permutation (rev l) l) /\
  SQLiteVariant.mirrored s0 /\
  Forall SQLiteVariant.io_ok evs /\
  Permutation
    (SQLiteVariant.explored (exec (SQLiteVariant.syncWeb (@rev _) Resolved) s))
    (SQLiteVariant.explored s).
Proof.
  cbv zeta.
  assert (Hperm : forall l : list SQLiteVariant.Row, Permutation (rev l) l).
  { intros l. symmetry. apply Permutation_rev. }
  assert (Hm : SQLiteVariant.mirrored
            (exec (SQLiteVariant.initDB (@rev _) Resolved Resolved)
               (SQLiteVariant.mount
                  (SQLiteVariant.mkDb
                     [SQLiteVariant.mkRow 1 22.3149 87.3105 0] 1)))).
  { apply initDB_mirrored, Hperm. }
  assert (Hok : Forall SQLiteVariant.io_ok
            [SQLiteVariant.StartTracking granted;
             SQLiteVariant.Fix kgp_near 5 Resolved;
             SQLiteVariant.SimulateWalk (fun _ => 7%Z) (fun _ => Resolved)]).
  { repeat constructor. }
  repeat split; try assumption.
  exact (proj2 (proj2 (reload_round_trip (@rev _) Hperm _ _ Hm Hok))).
Defined.

(** * Further properties *)

(** ** Geometry of [getDistance] *)

Lemma Rabs_le_bounds (a b : R) : Rabs a <= b -> - b <= a <= b.
Proof.
  unfold Rabs. destruct (Rcase_abs a); intros H; lra.
Qed.

Lemma asin_monotone (s t : R) :
  -1 <= s -> s <= t -> t <= 1 -> asin s <= asin t.
Proof.
  intros Hs Hst Ht.
  destruct (Rle_lt_dec (asin s) (asin t)) as [H | H]; [exact H | exfalso].
  pose proof (asin_bound s) as [Hs1 Hs2].
  pose proof (asin_bound t) as [Ht1 Ht2].
  pose proof (sin_increasing_1 _ _ Ht1 Ht2 Hs1 Hs2 H) as Hsin.
  rewrite !sin_asin in Hsin by lra. lra.
Qed.

Lemma sin_sqr_le (x : R) : sin x * sin x <= x * x.
Proof.
  destruct (Rle_lt_dec 0 x) as [Hx | Hx].
  - destruct (Rle_lt_dec x PI) as [Hp | Hp].
    + pose proof (sin_le_self x Hx). pose proof (sin_ge_0 x Hx Hp). nra.
    + pose proof (SIN_bound x). pose proof PI_bounds. nra.
  - assert (Hn : 0 <= - x) by lra.
    destruct (Rle_lt_dec (- x) PI) as [Hp | Hp].
    + pose proof (sin_le_self (- x) Hn) as H1.
      pose proof (sin_ge_0 (- x) Hn Hp) as H2.
      rewrite sin_neg in H1, H2. nra.
    + pose proof (SIN_bound x). pose proof PI_bounds. nra.
Qed.

(** [a_] is at most the sum of the two squared half-angles. *)
Lemma getDistance_a_upper_box (a b : Coordinate) :
  getDistance_a a b <=
  ((latitude b - latitude a) * (latitude b - latitude a) +
   (longitude b - longitude a) * (longitude b - longitude a)) *
  ((PI / 360) * (PI / 360)).
Proof.
  unfold getDistance_a, toRad. cbv zeta.
  set (u := (latitude b - latitude a) * PI / 180 / 2).
  set (v := (longitude b - longitude a) * PI / 180 / 2).
  pose proof (sin_sqr_le u) as Hu.
  pose proof (sin_sqr_le v) as Hv.
  pose proof (COS_bound (latitude a * PI / 180)) as [Hc1 Hc1'].
  pose proof (COS_bound (latitude b * PI / 180)) as [Hc2 Hc2'].
  set (c1 := cos (latitude a * PI / 180)) in *.
  set (c2 := cos (latitude b * PI / 180)) in *.
  assert (Hcc : c1 * c2 <= 1) by nra.
  assert (Hvv : 0 <= sin v * sin v) by nra.
  assert (Hprod : c1 * c2 * sin v * sin v <= sin v * sin v) by nra.
  replace (((latitude b - latitude a) * (latitude b - latitude a) +
            (longitude b - longitude a) * (longitude b - longitude a)) *
           (PI / 360 * (PI / 360)))
    with (u * u + v * v) by (unfold u, v; field).
  lra.
Qed.

(** For latitudes between the poles, [a_] is at least the squared sine of
    half the difference of latitudes. *)
Lemma getDistance_a_lower_lat (a b : Coordinate) :
  -90 <= latitude a <= 90 -> -90 <= latitude b <= 90 ->
  (sin (toRad (latitude b - latitude a) / 2))² <= getDistance_a a b.
Proof.
  intros Ha Hb.
  pose proof PI_bounds as [Hp1 Hp2].
  unfold getDistance_a, Rsqr. cbv zeta.
  assert (Hc1 : 0 <= cos (toRad (latitude a))).
  { apply cos_ge_0; unfold toRad; nra. }
  assert (Hc2 : 0 <= cos (toRad (latitude b))).
  { apply cos_ge_0; unfold toRad; nra. }
  set (c1 := cos (toRad (latitude a))) in *.
  set (c2 := cos (toRad (latitude b))) in *.
  set (sv := sin (toRad (longitude b - longitude a) / 2)).
  assert (0 <= c1 * c2) by nra.
  assert (0 <= sv * sv) by nra.
  assert (0 <= c1 * c2 * (sv * sv)) by nra.
  nra.
Qed.

Lemma asin_abs_sin (x : R) :
  - (PI / 2) <= x <= PI / 2 -> asin (Rabs (sin x)) = Rabs x.
Proof.
  intros Hx. pose proof PI_bounds.
  destruct (Rle_lt_dec 0 x) as [H0 | H0].
  - rewrite (Rabs_pos_eq x H0).
    rewrite Rabs_pos_eq by (apply sin_ge_0; lra).
    apply asin_sin. lra.
  - rewrite (Rabs_left x H0).
    assert (Hsn : sin x < 0).
    { pose proof (sin_gt_0 (- x) ltac:(lra) ltac:(lra)) as H1.
      rewrite sin_neg in H1. lra. }
    rewrite (Rabs_left _ Hsn). rewrite <- sin_neg. apply asin_sin. lra.
Qed.

(** When [a_] is at least the squared sine of a half-angle [x] of the
    first quadrant, the distance is at least [2 R x]. *)
Lemma getDistance_ge_arc (a b : Coordinate) (x : R) :
  - (PI / 2) <= x <= PI / 2 ->
  (sin x)² <= getDistance_a a b ->
  6371e3 * (2 * Rabs x) <= getDistance a b.
Proof.
  intros Hx Hlo.
  rewrite getDistance_asin.
  destruct (sqrt_a_range a b) as [_ Hs1].
  assert (Habs : Rabs (sin x) <= sqrt (getDistance_a a b)).
  { rewrite <- sqrt_Rsqr_abs. apply sqrt_le_1; try lra.
    - apply Rle_0_sqr.
    - pose proof (Rle_0_sqr (sin x)). lra. }
  pose proof (Rabs_pos (sin x)).
  pose proof (asin_monotone (Rabs (sin x)) (sqrt (getDistance_a a b))
                ltac:(lra) Habs Hs1) as Hm.
  rewrite (asin_abs_sin x Hx) in Hm. lra.
Qed.

(** X1: [getDistance] is zero between a coordinate and itself, and does
    not depend on the order of its two arguments. *)
Theorem getDistance_metric_facts (a b : Coordinate) :
  getDistance a a = 0 /\
  getDistance a b = getDistance b a.
Proof.
  split; [apply getDistance_self | apply getDistance_sym].
Qed.







(** ** The test at every latitude *)

Lemma sin_16_over_R : 2.5113e-6 <= sin (16 / 6371000).
Proof.
  pose proof PI_bounds as [Hp1 Hp2].
  set (k := 16 / 6371000).
  assert (Hk : 2.51137e-6 <= k <= 2.5114e-6) by (unfold k; lra).
  pose proof (sin_lower k ltac:(lra) ltac:(lra)) as Hs.
  assert (k ^ 3 <= 1e-15) by nra. lra.
Qed.

(** Two coordinates that differ by at most 0.00019 degrees in latitude
    and in longitude are less than 30 m apart. *)
Lemma getDistance_small_box (a b : Coordinate) :
  Rabs (latitude b - latitude a) <= 0.00019 ->
  Rabs (longitude b - longitude a) <= 0.00019 ->
  getDistance a b < 30.
Proof.
  intros Hlat Hlon.
  pose proof PI_bounds as [Hp1 Hp2].
  pose proof sin_15_over_R as Hsk.
  apply Rabs_le_bounds in Hlat. apply Rabs_le_bounds in Hlon.
  pose proof (getDistance_a_upper_box a b) as Hbox.
  set (u := latitude b - latitude a) in *.
  set (v := longitude b - longitude a) in *.
  assert (Hu : u * u <= 3.61e-8) by nra.
  assert (Hv : v * v <= 3.61e-8) by nra.
  assert (Hpp : 0 <= PI / 360 * (PI / 360) <= 7.6181e-5) by nra.
  assert (Ha : getDistance_a a b < (sin (15 / 6371000))²).
  { unfold Rsqr. nra. }
  pose proof (getDistance_upper a b (15 / 6371000) ltac:(lra) Ha). lra.
Qed.

(** X5: a fix that differs by at most 0.00019 degrees in latitude and in
    longitude from some point of the array the test reads is classified
    as not new, at every latitude; in particular a fix equal to one of
    the points. *)
Theorem isNew_false_near (l : list Coordinate) (pt c : Coordinate) :
  In pt l ->
  Rabs (latitude c - latitude pt) <= 0.00019 ->
  Rabs (longitude c - longitude pt) <= 0.00019 ->
  isNew l c = false.
Proof.
  intros Hin Hlat Hlon.
  apply isNew_false_iff. exists pt. split; [exact Hin |].
  now apply getDistance_small_box.
Qed.

Lemma isNew_false_near_witness :
  In kgp [kgp] /\
  Rabs (latitude kgp_mid - latitude kgp) <= 0.00019 /\
  Rabs (longitude kgp_mid - longitude kgp) <= 0.00019 /\
  isNew [kgp] kgp_mid = false.
Proof.
  assert (H1 : In kgp [kgp]) by (left; reflexivity).
  assert (H2 : Rabs (latitude kgp_mid - latitude kgp) <= 0.00019).
  { simpl. apply Rabs_le. lra. }
  assert (H3 : Rabs (longitude kgp_mid - longitude kgp) <= 0.00019).
  { simpl. apply Rabs_le. lra. }
  repeat split; try assumption.
  exact (isNew_false_near [kgp] kgp kgp_mid H1 H2 H3).
Defined.

(** X6: a fix between the poles whose latitude differs by at least
    0.00027 degrees from that of every point of the array the test reads
    (each between the poles) is classified as new, whatever the
    longitudes. *)
Theorem isNew_true_latitude (l : list Coordinate) (c : Coordinate) :
  -90 <= latitude c <= 90 ->
  (forall pt, In pt l ->
     -90 <= latitude pt <= 90 /\
     0.00027 <= Rabs (latitude c - latitude pt)) ->
  isNew l c = true.
Proof.
  intros Hc Hall.
  apply isNew_true_iff. intros pt Hin.
  destruct (Hall pt Hin) as [Hpt Hfar].
  pose proof PI_bounds as [Hp1 Hp2].
  pose proof (getDistance_ge_arc pt c (toRad (latitude c - latitude pt) / 2)
                ltac:(unfold toRad; split; nra)
                (getDistance_a_lower_lat pt c Hpt Hc)) as Hge.
  assert (Hxabs : Rabs (toRad (latitude c - latitude pt) / 2)
                  = Rabs (latitude c - latitude pt) * PI / 360).
  { unfold toRad.
    replace ((latitude c - latitude pt) * PI / 180 / 2)
      with ((latitude c - latitude pt) * (PI / 360)) by field.
    rewrite Rabs_mult, (Rabs_pos_eq (PI / 360)) by lra. field. }
  rewrite Hxabs in Hge. nra.
Qed.

Lemma isNew_true_latitude_witness :
  -90 <= latitude (mkCoordinate 22.3200 87.3105) <= 90 /\
  (forall pt, In pt [kgp] ->
     -90 <= latitude pt <= 90 /\
     0.00027 <= Rabs (latitude (mkCoordinate 22.3200 87.3105) - latitude pt)) /\
  isNew [kgp] (mkCoordinate 22.3200 87.3105) = true.
Proof.
  assert (H1 : -90 <= latitude (mkCoordinate 22.3200 87.3105) <= 90)
    by (simpl; lra).
  assert (H2 : forall pt, In pt [kgp] ->
     -90 <= latitude pt <= 90 /\
     0.00027 <= Rabs (latitude (mkCoordinate 22.3200 87.3105) - latitude pt)).
  { intros pt [<- | []]. simpl. split; [lra |].
    rewrite Rabs_pos_eq; lra. }
  split; [exact H1 |]. split; [exact H2 |].
  exact (isNew_true_latitude [kgp] (mkCoordinate 22.3200 87.3105) H1 H2).
Defined.

(** ** The spacing of the simulated walk *)

Lemma newPoints_nth (lat lon : R) (i : nat) :
  (i < 5)%nat ->
  nth_error (SQLiteVariant.newPoints lat lon) i =
  Some (mkCoordinate (lat + INR i * 0.0002) (lon + INR i * 0.0002)).
Proof.
  intros Hi. unfold SQLiteVariant.newPoints.
  rewrite nth_error_map.
  destruct i as [| [| [| [| [| i]]]]]; try reflexivity. lia.
Qed.

(** X7: two consecutive points of a simulated walk between the poles are
    at least 22 m and less than 32 m apart, whatever the base: the walk's
    steps fall on either side of the 30 m threshold depending on the
    latitude. *)
Theorem simulateWalk_spacing (lat lon : R) (i : nat) (p q : Coordinate) :
  -90 <= lat -> lat + 0.0008 <= 90 ->
  nth_error (SQLiteVariant.newPoints lat lon) i = Some p ->
  nth_error (SQLiteVariant.newPoints lat lon) (S i) = Some q ->
  22 <= getDistance p q < 32.
Proof.
  intros Hlo Hhi Hp Hq.
  assert (Hi : (S i < 5)%nat).
  { change 5%nat with (length (SQLiteVariant.newPoints lat lon)).
    apply nth_error_Some. rewrite Hq. discriminate. }
  rewrite newPoints_nth in Hp by lia.
  rewrite newPoints_nth in Hq by lia.
  assert (Ep : p = mkCoordinate (lat + INR i * 0.0002) (lon + INR i * 0.0002))
    by congruence.
  assert (Eq : q = mkCoordinate (lat + INR (S i) * 0.0002)
                                (lon + INR (S i) * 0.0002))
    by congruence.
  subst p q. clear Hp Hq.
  pose proof PI_bounds as [Hp1 Hp2].
  assert (Hir : 0 <= INR i <= 3).
  { split; [apply pos_INR |].
    replace 3 with (INR 3) by (simpl; lra). apply le_INR. lia. }
  rewrite S_INR.
  set (t := INR i) in *.
  set (p := mkCoordinate (lat + t * 0.0002) (lon + t * 0.0002)).
  set (q := mkCoordinate (lat + (t + 1) * 0.0002) (lon + (t + 1) * 0.0002)).
  assert (Hdlat : latitude q - latitude p = 0.0002) by (simpl; lra).
  assert (Hdlon : longitude q - longitude p = 0.0002) by (simpl; lra).
  split.
  - assert (Hpl : -90 <= latitude p <= 90) by (simpl; nra).
    assert (Hql : -90 <= latitude q <= 90) by (simpl; nra).
    pose proof (getDistance_ge_arc p q (toRad (latitude q - latitude p) / 2)
                  ltac:(rewrite Hdlat; unfold toRad; split; nra)
                  (getDistance_a_lower_lat p q Hpl Hql)) as Hge.
    rewrite Hdlat in Hge. unfold toRad in Hge.
    rewrite Rabs_pos_eq in Hge by nra. nra.
  - pose proof sin_16_over_R as Hsk.
    pose proof (getDistance_a_upper_box p q) as Hbox.
    rewrite Hdlat, Hdlon in Hbox.
    assert (Hpp : 0 <= PI / 360 * (PI / 360) <= 7.6181e-5) by nra.
    assert (Ha : getDistance_a p q < (sin (16 / 6371000))²).
    { unfold Rsqr. nra. }
    pose proof (getDistance_upper p q (16 / 6371000) ltac:(lra) Ha). lra.
Qed.

Lemma simulateWalk_spacing_witness :
  -90 <= 22.3149 /\ 22.3149 + 0.0008 <= 90 /\
  22 <= getDistance (mkCoordinate (22.3149 + INR 0 * 0.0002)
                                  (87.3105 + INR 0 * 0.0002))
                    (mkCoordinate (22.3149 + INR 1 * 0.0002)
                                  (87.3105 + INR 1 * 0.0002)) < 32.
Proof.
  assert (H1 : -90 <= 22.3149) by lra.
  assert (H2 : 22.3149 + 0.0008 <= 90) by lra.
  split; [exact H1 |]. split; [exact H2 |].
  exact (simulateWalk_spacing 22.3149 87.3105 0 _ _ H1 H2 eq_refl eq_refl).
Defined.

(** ** What the handlers leave alone *)

(** The loop of inserts never touches the [useState] cells; it appends
    to the table a prefix of the points, all of them exactly when it
    returns. *)
Lemma insertEach_frame (inserts : nat -> Settled) (clock : nat -> Z)
  (points : list Coordinate) :
  forall (i : nat) (s : SQLiteVariant.Screen),
    let r := SQLiteVariant.insertEach points i clock inserts s in
    SQLiteVariant.explored (fst r) = SQLiteVariant.explored s /\
    SQLiteVariant.location (fst r) = SQLiteVariant.location s /\
    SQLiteVariant.watcher (fst r) = SQLiteVariant.watcher s /\
    SQLiteVariant.isTracking (fst r) = SQLiteVariant.isTracking s /\
    exists k : nat,
      (k <= length points)%nat /\
      SQLiteVariant.persisted (fst r)
        = SQLiteVariant.persisted s ++ firstn k points /\
      (snd r = Normal tt -> k = length points).
Proof.
  induction points as [| p rest IH]; intros i s; cbv zeta.
  - simpl. repeat split. exists 0%nat. simpl.
    unfold SQLiteVariant.persisted. rewrite app_nil_r. auto.
  - simpl. unfold bind, SQLiteVariant.runInsert.
    destruct (inserts i).
    + specialize (IH (S i)
        (SQLiteVariant.with_db
           (SQLiteVariant.insert_row (latitude p) (longitude p) (clock i))
           (SQLiteVariant.called
              (SQLiteVariant.InsertPoint (latitude p) (longitude p) (clock i))
              s))).
      cbv zeta in IH.
      destruct IH as [He [Hl [Hw [Ht [k [Hk [Hp Hn]]]]]]].
      repeat split; try assumption.
      exists (S k). split; [simpl; lia |]. split.
      * rewrite Hp. unfold SQLiteVariant.persisted. simpl.
        rewrite map_app. simpl. rewrite <- app_assoc.
        destruct p; reflexivity.
      * intros Hnorm. simpl. f_equal. auto.
    + simpl. repeat split. exists 0%nat. simpl.
      unfold SQLiteVariant.persisted. simpl. rewrite app_nil_r.
      split; [lia |]. split; [reflexivity | discriminate].
Qed.

(** The simulated walk never throws and never touches the location or
    the subscription; the table receives a prefix of its points, and
    ExploredSet receives all of them or none. *)
Lemma simulateWalk_frame (clock : nat -> Z) (inserts : nat -> Settled)
  (s : SQLiteVariant.Screen) :
  let s' := exec (SQLiteVariant.simulateWalk clock inserts) s in
  let points :=
    SQLiteVariant.newPoints (SQLiteVariant.baseLat s)
                            (SQLiteVariant.baseLon s) in
  completion (SQLiteVariant.simulateWalk clock inserts) s = Normal tt /\
  SQLiteVariant.location s' = SQLiteVariant.location s /\
  SQLiteVariant.watcher s' = SQLiteVariant.watcher s /\
  SQLiteVariant.isTracking s' = SQLiteVariant.isTracking s /\
  exists k : nat,
    SQLiteVariant.persisted s'
      = SQLiteVariant.persisted s ++ firstn k points /\
    ((SQLiteVariant.explored s' = SQLiteVariant.explored s ++ points /\
      firstn k points = points) \/
     SQLiteVariant.explored s' = SQLiteVariant.explored s).
Proof.
  cbv zeta.
  unfold exec, completion, SQLiteVariant.simulateWalk, tryCatch, bind.
  pose proof (insertEach_frame inserts clock
                (SQLiteVariant.newPoints (SQLiteVariant.baseLat s)
                                         (SQLiteVariant.baseLon s))
                0 s) as H.
  cbv zeta in H.
  destruct (SQLiteVariant.insertEach _ 0 clock inserts s)
    as [s1 [[] |]]; simpl in H;
    destruct H as [He [Hl [Hw [Ht [k [Hk [Hp Hn]]]]]]]; simpl.
  - repeat split; try assumption.
    exists k. split; [exact Hp |]. left. rewrite He. split; [reflexivity |].
    rewrite (Hn eq_refl). reflexivity.
  - repeat split; try assumption.
    exists k. split; [exact Hp |]. right. exact He.
Qed.

(** The fix callback never touches the subscription. *)
Lemma sqlite_deliver_frame (c : Coordinate) (now : Z) (insert : Settled)
  (s : SQLiteVariant.Screen) :
  let s' := exec (SQLiteVariant.deliver c now insert) s in
  SQLiteVariant.watcher s' = SQLiteVariant.watcher s /\
  SQLiteVariant.isTracking s' = SQLiteVariant.isTracking s.
Proof.
  cbv zeta. unfold exec, SQLiteVariant.deliver.
  remember (SQLiteVariant.watcher s) as w eqn:Hw.
  destruct w as [sub |]; [| simpl; auto].
  unfold SQLiteVariant.onFix, bind, tryCatch. simpl.
  destruct (isNew (cb_explored sub) c); simpl; [| auto].
  destruct insert; simpl; auto.
Qed.

(** ** Tracking *)

(** X8: a fix delivered to a subscription sends exactly one INSERT, with
    the fix's coordinates and the current time, when the test classifies
    it as new, and sends nothing to the database otherwise; whatever the
    outcome, the table gains at most that one row. *)
Theorem fix_database_traffic (sub : Subscription) (c : Coordinate) (now : Z)
  (insert : Settled) (s : SQLiteVariant.Screen) :
  SQLiteVariant.watcher s = Some sub ->
  let s' := exec (SQLiteVariant.deliver c now insert) s in
  SQLiteVariant.db_calls s' =
    SQLiteVariant.db_calls s ++
    (if isNew (cb_explored sub) c
     then [SQLiteVariant.InsertPoint (latitude c) (longitude c) now]
     else []) /\
  (isNew (cb_explored sub) c = false ->
   SQLiteVariant.db s' = SQLiteVariant.db s) /\
  (exists stored,
     SQLiteVariant.persisted s' = SQLiteVariant.persisted s ++ stored /\
     (length stored <= 1)%nat).
Proof.
  intros Hw. cbv zeta. unfold exec, SQLiteVariant.deliver. rewrite Hw.
  unfold SQLiteVariant.onFix, bind, tryCatch, SQLiteVariant.persisted.
  simpl. destruct (isNew (cb_explored sub) c); simpl.
  - destruct insert; simpl.
    + repeat split; try discriminate. exists [c]. rewrite map_app.
      destruct c; simpl. auto.
    + repeat split; try discriminate. exists []. rewrite app_nil_r. auto.
  - rewrite app_nil_r. repeat split. exists []. rewrite app_nil_r. auto.
Qed.

Lemma fix_database_traffic_witness :
  let s := exec (SQLiteVariant.startTracking granted)
                (SQLiteVariant.mount SQLiteVariant.empty_db) in
  SQLiteVariant.watcher s = Some (mkSubscription []) /\
  SQLiteVariant.db_calls (exec (SQLiteVariant.deliver kgp 5 Rejected) s)
    = [SQLiteVariant.InsertPoint (latitude kgp) (longitude kgp) 5].
Proof.
  cbv zeta. split; [reflexivity |].
  exact (proj1 (fix_database_traffic (mkSubscription []) kgp 5 Rejected
                  (exec (SQLiteVariant.startTracking granted)
                        (SQLiteVariant.mount SQLiteVariant.empty_db))
                  eq_refl)).
Defined.

(** X9: stopping and starting again refreshes what the callback sees:
    the first fix after a restart is tested against the ExploredSet held
    at the restart, and appended exactly when the test accepts it. *)
Theorem restart_refreshes_snapshot
  (order : list SQLiteVariant.Row -> list SQLiteVariant.Row)
  (c : Coordinate) (now : Z) (s : SQLiteVariant.Screen) :
  let s' :=
    SQLiteVariant.run order
      [SQLiteVariant.StopTracking;
       SQLiteVariant.StartTracking granted;
       SQLiteVariant.Fix c now Resolved] s in
  SQLiteVariant.explored s' =
    (if isNew (SQLiteVariant.explored s) c
     then SQLiteVariant.explored s ++ [c]
     else SQLiteVariant.explored s) /\
  SQLiteVariant.watcher s' =
    Some (mkSubscription (SQLiteVariant.explored s)).
Proof.
  cbv zeta. rewrite !sqlite_run_cons.
  set (s2 := exec (SQLiteVariant.step order (SQLiteVariant.StartTracking granted))
               (exec (SQLiteVariant.step order SQLiteVariant.StopTracking) s)).
  assert (Hw : SQLiteVariant.watcher s2
               = Some (mkSubscription (SQLiteVariant.explored s)))
    by reflexivity.
  assert (He : SQLiteVariant.explored s2 = SQLiteVariant.explored s)
    by reflexivity.
  change (SQLiteVariant.run order [] ?x) with x.
  split.
  - destruct (sqlite_onFix_spec (mkSubscription (SQLiteVariant.explored s))
                c now Resolved s2) as [_ [Hex _]].
    exact Hex.
  - destruct (sqlite_deliver_frame c now Resolved s2) as [Hw' _].
    rewrite <- Hw. exact Hw'.
Qed.





Lemma sqlite_step_tracking_consistent
  (order : list SQLiteVariant.Row -> list SQLiteVariant.Row)
  (ev : SQLiteVariant.Event) (s : SQLiteVariant.Screen) :
  SQLiteVariant.tracking_consistent s ->
  SQLiteVariant.tracking_consistent (exec (SQLiteVariant.step order ev) s).
Proof.
  unfold SQLiteVariant.tracking_consistent. intros H.
  destruct ev as
    [create select | status | | c now insert | button delete
    | clock inserts | select]; simpl.
  - destruct create, select; exact H.
  - destruct status; try exact H. simpl. split; [discriminate | reflexivity].
  - simpl. split; [discriminate | intros E; now contradiction E].
  - destruct (sqlite_deliver_frame c now insert s) as [Hw Ht].
    now rewrite Hw, Ht.
  - destruct button, delete; exact H.
  - destruct (simulateWalk_frame clock inserts s) as [_ [_ [Hw [Ht _]]]].
    now rewrite Hw, Ht.
  - destruct select; exact H.
Qed.

(** X11: in every screen reached from the mounted one, by any events
    with any outcomes, [isTracking] is set exactly when a subscription is
    held. *)
Theorem tracking_flag_invariant
  (order : list SQLiteVariant.Row -> list SQLiteVariant.Row)
  (d : SQLiteVariant.Db) (evs : list SQLiteVariant.Event) :
  SQLiteVariant.tracking_consistent
    (SQLiteVariant.run order evs (SQLiteVariant.mount d)).
Proof.
  assert (Hgen : forall s, SQLiteVariant.tracking_consistent s ->
            SQLiteVariant.tracking_consistent (SQLiteVariant.run order evs s)).
  { induction evs as [| ev evs IH]; intros s Hs; [exact Hs |].
    rewrite sqlite_run_cons. apply IH.
    now apply sqlite_step_tracking_consistent. }
  apply Hgen. unfold SQLiteVariant.tracking_consistent. simpl.
  split; [discriminate | intros E; now contradiction E].
Qed.



(** A fix that the test accepts, its insert succeeding, is appended to
    ExploredSet and to the table. *)
Lemma sqlite_fix_new_appended
  (order : list SQLiteVariant.Row -> list SQLiteVariant.Row)
  (sub : Subscription) (c : Coordinate) (now : Z)
  (s : SQLiteVariant.Screen) :
  SQLiteVariant.watcher s = Some sub ->
  isNew (cb_explored sub) c = true ->
  let s' := exec (SQLiteVariant.step order
                    (SQLiteVariant.Fix c now Resolved)) s in
  SQLiteVariant.explored s' = SQLiteVariant.explored s ++ [c] /\
  SQLiteVariant.persisted s' = SQLiteVariant.persisted s ++ [c].
Proof.
  intros Hw Hnew. cbv zeta.
  destruct (sqlite_onFix_spec sub c now Resolved s) as [_ [He [Hp _]]].
  rewrite Hnew in He, Hp.
  unfold exec in *. simpl. unfold SQLiteVariant.deliver. rewrite Hw.
  split; assumption.
Qed.

(** A screen loaded over a table holding [kgp], a simulated walk whose
    third insert fails, then a tracking session with one new fix: the
    walk leaves two rows in the table and the fix is appended. *)
Lemma sample_session
  (order : list SQLiteVariant.Row -> list SQLiteVariant.Row)
  (s : SQLiteVariant.Screen) :
  SQLiteVariant.location s = None ->
  SQLiteVariant.explored s = [kgp] ->
  let s' :=
    SQLiteVariant.run order
      [SQLiteVariant.SimulateWalk (fun _ => 2%Z)
         (fun j => if Nat.ltb j 2 then Resolved else Rejected);
       SQLiteVariant.StartTracking granted;
       SQLiteVariant.Fix kgp_near 3 Resolved;
       SQLiteVariant.StopTracking] s in
  SQLiteVariant.explored s' = [kgp; kgp_near] /\
  SQLiteVariant.persisted s' =
    SQLiteVariant.persisted s ++
    firstn 2 (SQLiteVariant.newPoints 22.3149 87.3105) ++ [kgp_near].
Proof.
  intros Hl He. cbv zeta. rewrite !sqlite_run_cons.
  change (SQLiteVariant.run order [] ?x) with x.
  set (s1 := exec (SQLiteVariant.step order
                     (SQLiteVariant.SimulateWalk (fun _ => 2%Z)
                        (fun j => if Nat.ltb j 2 then Resolved else Rejected)))
                  s).
  assert (He1 : SQLiteVariant.explored s1 = [kgp]).
  { unfold s1, exec. simpl. unfold SQLiteVariant.simulateWalk.
    simpl. exact He. }
  assert (Hp1 : SQLiteVariant.persisted s1 =
                SQLiteVariant.persisted s ++
                firstn 2 (SQLiteVariant.newPoints 22.3149 87.3105)).
  { unfold s1, exec, SQLiteVariant.persisted. simpl.
    unfold SQLiteVariant.simulateWalk, SQLiteVariant.baseLat,
      SQLiteVariant.baseLon. rewrite Hl. simpl.
    rewrite !map_app. simpl. rewrite <- !app_assoc. reflexivity. }
  set (s2 := exec (SQLiteVariant.step order
                     (SQLiteVariant.StartTracking granted)) s1).
  assert (Hw2 : SQLiteVariant.watcher s2 = Some (mkSubscription [kgp])).
  { change (Some (mkSubscription (SQLiteVariant.explored s1))
            = Some (mkSubscription [kgp])).
    now rewrite He1. }
  destruct (sqlite_fix_new_appended order (mkSubscription [kgp]) kgp_near 3
              s2 Hw2 isNew_kgp_near) as [He3 Hp3].
  split.
  - change (SQLiteVariant.explored
              (exec (SQLiteVariant.step order (SQLiteVariant.Fix kgp_near 3 Resolved))
                    s2) = [kgp; kgp_near]).
    rewrite He3. change (SQLiteVariant.explored s2)
      with (SQLiteVariant.explored s1). now rewrite He1.
  - change (SQLiteVariant.persisted
              (exec (SQLiteVariant.step order (SQLiteVariant.Fix kgp_near 3 Resolved))
                    s2) =
            SQLiteVariant.persisted s ++
            firstn 2 (SQLiteVariant.newPoints 22.3149 87.3105) ++ [kgp_near]).
    rewrite Hp3. change (SQLiteVariant.persisted s2)
      with (SQLiteVariant.persisted s1).
    rewrite Hp1, <- app_assoc. reflexivity.
Qed.

Lemma sqlite_growing_step
  (order : list SQLiteVariant.Row -> list SQLiteVariant.Row)
  (ev : SQLiteVariant.Event) (s : SQLiteVariant.Screen) :
  SQLiteVariant.growing_event ev ->
  let s' := exec (SQLiteVariant.step order ev) s in
  exists added stored,
    SQLiteVariant.explored s' = SQLiteVariant.explored s ++ added /\
    SQLiteVariant.persisted s' = SQLiteVariant.persisted s ++ stored.
Proof.
  intros Hg. cbv zeta.
  destruct ev as
    [create select | status | | c now insert | button delete
    | clock inserts | select]; simpl in Hg; try contradiction.
  - exists [], []. rewrite !app_nil_r. destruct status; split; reflexivity.
  - exists [], []. rewrite !app_nil_r. split; reflexivity.
  - simpl. unfold exec, SQLiteVariant.deliver.
    destruct (SQLiteVariant.watcher s) as [sub |].
    + destruct (sqlite_onFix_spec sub c now insert s) as [_ [He [Hp _]]].
      fold (exec (SQLiteVariant.onFix sub c now insert) s).
      rewrite He, Hp.
      destruct (isNew (cb_explored sub) c), insert;
        try (exists [c], [c]; split; reflexivity);
        exists [], []; rewrite !app_nil_r; split; reflexivity.
    + exists [], []. rewrite !app_nil_r. split; reflexivity.
  - destruct (simulateWalk_frame clock inserts s)
      as [_ [_ [_ [_ [k [Hp [[He _] | He]]]]]]].
    + eexists. eexists. split; [exact He | exact Hp].
    + exists []. eexists. rewrite app_nil_r. split; [exact He | exact Hp].
Qed.

(** X13: tracking and the simulated walk only append.  After any
    sequence of starts, stops, fixes and simulated walks, with any
    outcomes, the earlier ExploredSet is a prefix of the new one and the
    earlier rows are a prefix of the table: no point is removed or
    moved. *)
Theorem tracking_only_appends
  (order : list SQLiteVariant.Row -> list SQLiteVariant.Row)
  (evs : list SQLiteVariant.Event) (s : SQLiteVariant.Screen) :
  Forall SQLiteVariant.growing_event evs ->
  let s' := SQLiteVariant.run order evs s in
  exists added stored,
    SQLiteVariant.explored s' = SQLiteVariant.explored s ++ added /\
    SQLiteVariant.persisted s' = SQLiteVariant.persisted s ++ stored.
Proof.
  revert s. induction evs as [| ev evs IH]; intros s Hall; cbv zeta.
  - exists [], []. rewrite !app_nil_r. split; reflexivity.
  - inversion Hall as [| ? ? Hev Hevs]; subst.
    rewrite sqlite_run_cons.
    destruct (sqlite_growing_step order ev s Hev) as [a1 [p1 [He1 Hp1]]].
    destruct (IH (exec (SQLiteVariant.step order ev) s) Hevs)
      as [a2 [p2 [He2 Hp2]]].
    exists (a1 ++ a2), (p1 ++ p2).
    rewrite He2, Hp2, He1, Hp1, <- !app_assoc. split; reflexivity.
Qed.

Lemma tracking_only_appends_witness :
  let s :=
    exec (SQLiteVariant.initDB (fun l => l) Resolved Resolved)
         (SQLiteVariant.mount
            (SQLiteVariant.mkDb [SQLiteVariant.mkRow 1 22.3149 87.3105 0] 1)) in
  let evs :=
    [SQLiteVariant.SimulateWalk (fun _ => 2%Z)
       (fun j => if Nat.ltb j 2 then Resolved else Rejected);
     SQLiteVariant.StartTracking granted;
     SQLiteVariant.Fix kgp_near 3 Resolved;
     SQLiteVariant.StopTracking] in
  Forall SQLiteVariant.growing_event evs /\
  SQLiteVariant.explored s = [kgp] /\
  SQLiteVariant.persisted s = [kgp] /\
  SQLiteVariant.explored (SQLiteVariant.run (fun l => l) evs s)
    = [kgp; kgp_near] /\
  SQLiteVariant.persisted (SQLiteVariant.run (fun l => l) evs s)
    = [kgp] ++ firstn 2 (SQLiteVariant.newPoints 22.3149 87.3105)
            ++ [kgp_near] /\
  exists added stored,
    SQLiteVariant.explored (SQLiteVariant.run (fun l => l) evs s)
      = SQLiteVariant.explored s ++ added /\
    SQLiteVariant.persisted (SQLiteVariant.run (fun l => l) evs s)
      = SQLiteVariant.persisted s ++ stored.
Proof.
  cbv zeta.
  assert (Hall : Forall SQLiteVariant.growing_event
            [SQLiteVariant.SimulateWalk (fun _ => 2%Z)
               (fun j => if Nat.ltb j 2 then Resolved else Rejected);
             SQLiteVariant.StartTracking granted;
             SQLiteVariant.Fix kgp_near 3 Resolved;
             SQLiteVariant.StopTracking]).
  { repeat constructor. }
  destruct (sample_session (fun l => l)
              (exec (SQLiteVariant.initDB (fun l => l) Resolved Resolved)
                 (SQLiteVariant.mount
                    (SQLiteVariant.mkDb
                       [SQLiteVariant.mkRow 1 22.3149 87.3105 0] 1)))
              eq_refl eq_refl) as [He Hp].
  split; [exact Hall |]. split; [reflexivity |]. split; [reflexivity |].
  split; [exact He |]. split; [exact Hp |].
  exact (tracking_only_appends (fun l => l) _
           (exec (SQLiteVariant.initDB (fun l => l) Resolved Resolved)
              (SQLiteVariant.mount
                 (SQLiteVariant.mkDb
                    [SQLiteVariant.mkRow 1 22.3149 87.3105 0] 1)))
           Hall).
Defined.

Lemma isNew_member (l : list Coordinate) (c : Coordinate) :
  In c l -> isNew l c = false.
Proof.
  intros Hin. apply isNew_false_iff. exists c. split; [exact Hin |].
  rewrite getDistance_self. lra.
Qed.

(** X14: a reset does not refresh what the callback sees.  When the
    subscription's callback closed over an array holding [c], a fix at
    [c] delivered after a confirmed, successful reset is still classified
    as not new: ExploredSet and the table stay empty, and only the
    last-known coordinate changes. *)
Theorem reset_keeps_stale_snapshot
  (order : list SQLiteVariant.Row -> list SQLiteVariant.Row)
  (sub : Subscription) (c : Coordinate) (now : Z) (insert : Settled)
  (s : SQLiteVariant.Screen) :
  SQLiteVariant.watcher s = Some sub ->
  In c (cb_explored sub) ->
  let s' :=
    SQLiteVariant.run order
      [SQLiteVariant.Reset SQLiteVariant.Clear Resolved;
       SQLiteVariant.Fix c now insert] s in
  SQLiteVariant.explored s' = [] /\
  SQLiteVariant.persisted s' = [] /\
  SQLiteVariant.location s' = Some c.
Proof.
  intros Hw Hin. cbv zeta. rewrite !sqlite_run_cons.
  set (s1 := exec (SQLiteVariant.step order
                     (SQLiteVariant.Reset SQLiteVariant.Clear Resolved)) s).
  assert (Hw1 : SQLiteVariant.watcher s1 = Some sub) by exact Hw.
  change (SQLiteVariant.run order [] ?x) with x.
  unfold exec. simpl. unfold SQLiteVariant.deliver. rewrite Hw1.
  destruct (sqlite_onFix_spec sub c now insert s1) as [Hl [He [Hp _]]].
  rewrite (isNew_member _ _ Hin) in He, Hp.
  unfold exec in Hl, He, Hp. rewrite Hl, He, Hp. repeat split.
Qed.

Lemma reset_keeps_stale_snapshot_witness :
  let s :=
    exec (SQLiteVariant.startTracking granted)
      (exec (SQLiteVariant.initDB (fun l => l) Resolved Resolved)
         (SQLiteVariant.mount
            (SQLiteVariant.mkDb
               [SQLiteVariant.mkRow 1 22.3149 87.3105 0] 1))) in
  SQLiteVariant.watcher s = Some (mkSubscription [kgp]) /\
  In kgp (cb_explored (mkSubscription [kgp])) /\
  SQLiteVariant.explored
    (SQLiteVariant.run (fun l => l)
       [SQLiteVariant.Reset SQLiteVariant.Clear Resolved;
        SQLiteVariant.Fix kgp 9 Resolved] s) = [].
Proof.
  cbv zeta.
  assert (Hin : In kgp (cb_explored (mkSubscription [kgp])))
    by (left; reflexivity).
  split; [reflexivity |]. split; [exact Hin |].
  exact (proj1 (reset_keeps_stale_snapshot (fun l => l)
                  (mkSubscription [kgp]) kgp 9 Resolved
                  (exec (SQLiteVariant.startTracking granted)
                     (exec (SQLiteVariant.initDB (fun l => l)
                              Resolved Resolved)
                        (SQLiteVariant.mount
                           (SQLiteVariant.mkDb
                              [SQLiteVariant.mkRow 1 22.3149 87.3105 0] 1))))
                  eq_refl Hin)).
Defined.

(** ** The table and the in-memory array *)

Lemma insertEach_fails_at (inserts : nat -> Settled) (clock : nat -> Z)
  (points : list Coordinate) :
  forall (k i : nat) (s : SQLiteVariant.Screen),
    (k < length points)%nat ->
    (forall j, (j < k)%nat -> inserts (i + j)%nat = Resolved) ->
    inserts (i + k)%nat = Rejected ->
    let r := SQLiteVariant.insertEach points i clock inserts s in
    snd r = Thrown /\
    SQLiteVariant.explored (fst r) = SQLiteVariant.explored s /\
    SQLiteVariant.persisted (fst r)
      = SQLiteVariant.persisted s ++ firstn k points.
Proof.
  induction points as [| p rest IH]; intros k i s Hk Hok Hko; cbv zeta;
    [simpl in Hk; lia |].
  simpl. unfold bind, SQLiteVariant.runInsert.
  destruct k as [| k].
  - rewrite Nat.add_0_r in Hko. rewrite Hko. simpl.
    unfold SQLiteVariant.persisted. simpl. rewrite app_nil_r. auto.
  - assert (H0 : inserts i = Resolved).
    { rewrite <- (Nat.add_0_r i). apply Hok. lia. }
    rewrite H0.
    specialize (IH k (S i)
      (SQLiteVariant.with_db
         (SQLiteVariant.insert_row (latitude p) (longitude p) (clock i))
         (SQLiteVariant.called
            (SQLiteVariant.InsertPoint (latitude p) (longitude p) (clock i))
            s))
      ltac:(simpl in Hk; lia)).
    assert (Hok' : forall j, (j < k)%nat -> inserts (S i + j)%nat = Resolved).
    { intros j Hj. replace (S i + j)%nat with (i + S j)%nat by lia.
      apply Hok. lia. }
    assert (Hko' : inserts (S i + k)%nat = Rejected).
    { replace (S i + k)%nat with (i + S k)%nat by lia. exact Hko. }
    specialize (IH Hok' Hko'). cbv zeta in IH.
    destruct IH as [Hc [He Hp]].
    repeat split; try assumption.
    rewrite Hp. unfold SQLiteVariant.persisted. simpl.
    rewrite map_app. simpl. rewrite <- app_assoc.
    destruct p; reflexivity.
Qed.

(** X15: when the insert numbered [k] of a simulated walk is the first
    to fail, the [k] points before it stay in the table and none of the
    five reaches ExploredSet; the handler does not throw. *)
Theorem simulateWalk_partial_failure (clock : nat -> Z)
  (inserts : nat -> Settled) (k : nat) (s : SQLiteVariant.Screen) :
  (k < 5)%nat ->
  (forall j, (j < k)%nat -> inserts j = Resolved) ->
  inserts k = Rejected ->
  let s' := exec (SQLiteVariant.simulateWalk clock inserts) s in
  completion (SQLiteVariant.simulateWalk clock inserts) s = Normal tt /\
  SQLiteVariant.explored s' = SQLiteVariant.explored s /\
  SQLiteVariant.persisted s' =
    SQLiteVariant.persisted s ++
    firstn k (SQLiteVariant.newPoints (SQLiteVariant.baseLat s)
                                      (SQLiteVariant.baseLon s)).
Proof.
  intros Hk Hok Hko. cbv zeta.
  unfold exec, completion, SQLiteVariant.simulateWalk, tryCatch, bind.
  pose proof (insertEach_fails_at inserts clock
                (SQLiteVariant.newPoints (SQLiteVariant.baseLat s)
                                         (SQLiteVariant.baseLon s))
                k 0 s Hk Hok Hko) as H.
  cbv zeta in H.
  destruct (SQLiteVariant.insertEach _ 0 clock inserts s)
    as [s1 [[] |]]; simpl in H; destruct H as [Hc [He Hp]];
    [discriminate |].
  simpl. auto.
Qed.

Lemma simulateWalk_partial_failure_witness :
  let inserts := fun j => if Nat.ltb j 2 then Resolved else Rejected in
  (2 < 5)%nat /\
  (forall j, (j < 2)%nat -> inserts j = Resolved) /\
  inserts 2%nat = Rejected /\
  SQLiteVariant.persisted
    (exec (SQLiteVariant.simulateWalk (fun _ => 0%Z) inserts)
          (SQLiteVariant.mount SQLiteVariant.empty_db))
  = firstn 2 (SQLiteVariant.newPoints 22.3149 87.3105) /\
  SQLiteVariant.explored
    (exec (SQLiteVariant.simulateWalk (fun _ => 0%Z) inserts)
          (SQLiteVariant.mount SQLiteVariant.empty_db))
  = [].
Proof.
  cbv zeta.
  assert (H1 : (2 < 5)%nat) by lia.
  assert (H2 : forall j, (j < 2)%nat ->
            (if Nat.ltb j 2 then Resolved else Rejected) = Resolved).
  { intros j Hj. apply Nat.ltb_lt in Hj. now rewrite Hj. }
  assert (H3 : (if Nat.ltb 2 2 then Resolved else Rejected) = Rejected)
    by reflexivity.
  destruct (simulateWalk_partial_failure (fun _ => 0%Z)
              (fun j => if Nat.ltb j 2 then Resolved else Rejected)
              2 (SQLiteVariant.mount SQLiteVariant.empty_db) H1 H2 H3)
    as [_ [He Hp]].
  repeat split; try assumption.
Defined.

Section Coverage.

Variable order : list SQLiteVariant.Row -> list SQLiteVariant.Row.
Hypothesis order_perm : forall l, Permutation (order l) l.




(** X17: a reload whose read succeeds makes ExploredSet mirror the table
    from any screen, and leaves the table alone; a reload whose read
    fails leaves ExploredSet empty and the table alone, and a successful
    reload after it recovers every persisted point. *)
Theorem reload_recovers (s : SQLiteVariant.Screen) :
  let ok := exec (SQLiteVariant.syncWeb order Resolved) s in
  let ko := exec (SQLiteVariant.syncWeb order Rejected) s in
  let again := exec (SQLiteVariant.syncWeb order Resolved) ko in
  SQLiteVariant.mirrored ok /\
  SQLiteVariant.db ok = SQLiteVariant.db s /\
  SQLiteVariant.explored ko = [] /\
  SQLiteVariant.db ko = SQLiteVariant.db s /\
  completion (SQLiteVariant.syncWeb order Rejected) s = Normal tt /\
  Permutation (SQLiteVariant.explored again) (SQLiteVariant.persisted s).
Proof.
  cbv zeta. repeat split.
  - unfold SQLiteVariant.mirrored.
    exact (Permutation_map SQLiteVariant.coordinate_of
             (order_perm (SQLiteVariant.rows (SQLiteVariant.db s)))).
  - exact (Permutation_map SQLiteVariant.coordinate_of
             (order_perm (SQLiteVariant.rows (SQLiteVariant.db s)))).
Qed.

End Coverage.


Lemma reload_recovers_witness :
  let s :=
    SQLiteVariant.mount
      (SQLiteVariant.mkDb [SQLiteVariant.mkRow 1 22.3149 87.3105 0] 1) in
  (forall l : list SQLiteVariant.Row, Permutation (rev l) l) /\
  Permutation
    (SQLiteVariant.explored
       (exec (SQLiteVariant.syncWeb (@rev _) Resolved)
             (exec (SQLiteVariant.syncWeb (@rev _) Rejected) s)))
    (SQLiteVariant.persisted s).
Proof.
  cbv zeta.
  assert (Hperm : forall l : list SQLiteVariant.Row, Permutation (rev l) l).
  { intros l. symmetry. apply Permutation_rev. }
  split; [exact Hperm |].
  exact (proj2 (proj2 (proj2 (proj2 (proj2
           (reload_recovers (@rev _) Hperm
              (SQLiteVariant.mount
                 (SQLiteVariant.mkDb
                    [SQLiteVariant.mkRow 1 22.3149 87.3105 0] 1)))))))).
Defined.

(** X18: the initial load never throws and never changes the table; when
    creating the table or reading it fails, ExploredSet stays as it was
    (empty on a mounted screen), and when the creation fails no read is
    sent; when both succeed, ExploredSet holds the rows in the order
    returned. *)
Theorem initDB_degrades
  (order : list SQLiteVariant.Row -> list SQLiteVariant.Row)
  (create select : Settled) (s : SQLiteVariant.Screen) :
  let s' := exec (SQLiteVariant.initDB order create select) s in
  completion (SQLiteVariant.initDB order create select) s = Normal tt /\
  SQLiteVariant.db s' = SQLiteVariant.db s /\
  (create = Rejected \/ select = Rejected ->
   SQLiteVariant.explored s' = SQLiteVariant.explored s) /\
  (create = Rejected ->
   SQLiteVariant.db_calls s'
     = SQLiteVariant.db_calls s ++ [SQLiteVariant.CreateTable]) /\
  (create = Resolved -> select = Resolved ->
   SQLiteVariant.explored s' =
     map SQLiteVariant.coordinate_of
         (order (SQLiteVariant.rows (SQLiteVariant.db s)))).
Proof.
  cbv zeta. destruct create, select; repeat split;
    try discriminate; intros [H | H]; discriminate.
Qed.

Lemma initDB_degrades_witness :
  (Rejected = Rejected \/ Resolved = Rejected) /\
  SQLiteVariant.explored
    (exec (SQLiteVariant.initDB (fun l => l) Rejected Resolved)
          (SQLiteVariant.mount
             (SQLiteVariant.mkDb
                [SQLiteVariant.mkRow 1 22.3149 87.3105 0] 1))) = [].
Proof.
  assert (H : Rejected = Rejected \/ Resolved = Rejected)
    by (left; reflexivity).
  split; [exact H |].
  exact (proj1 (proj2 (proj2
           (initDB_degrades (fun l => l) Rejected Resolved
              (SQLiteVariant.mount
                 (SQLiteVariant.mkDb
                    [SQLiteVariant.mkRow 1 22.3149 87.3105 0] 1))))) H).
Defined.

(** ** The base of the simulated walk *)

(** X19: the simulated walk starts at the last-known coordinate, except
    that a missing or zero latitude is replaced by 22.3149 and a missing
    or zero longitude by 87.3105, each on its own: on the equator or on
    the prime meridian the walk does not start where the user is. *)
Theorem simulateWalk_base (s : SQLiteVariant.Screen) :
  (SQLiteVariant.location s = None ->
   SQLiteVariant.baseLat s = 22.3149 /\ SQLiteVariant.baseLon s = 87.3105) /\
  (forall c, SQLiteVariant.location s = Some c ->
     (latitude c <> 0 -> SQLiteVariant.baseLat s = latitude c) /\
     (longitude c <> 0 -> SQLiteVariant.baseLon s = longitude c) /\
     (latitude c = 0 -> SQLiteVariant.baseLat s = 22.3149) /\
     (longitude c = 0 -> SQLiteVariant.baseLon s = 87.3105)).
Proof.
  unfold SQLiteVariant.baseLat, SQLiteVariant.baseLon, SQLiteVariant.or_else.
  split.
  - intros ->. split; reflexivity.
  - intros c ->. simpl.
    destruct (Req_dec_T (latitude c) 0), (Req_dec_T (longitude c) 0);
      repeat split; intros; try reflexivity; contradiction.
Qed.

Lemma simulateWalk_base_witness :
  let s := exec (SQLiteVariant.setLocation (Some (mkCoordinate 0 36.8)))
                (SQLiteVariant.mount SQLiteVariant.empty_db) in
  SQLiteVariant.location s = Some (mkCoordinate 0 36.8) /\
  latitude (mkCoordinate 0 36.8) = 0 /\
  longitude (mkCoordinate 0 36.8) <> 0 /\
  SQLiteVariant.baseLat s = 22.3149 /\
  SQLiteVariant.baseLon s = 36.8.
Proof.
  cbv zeta.
  assert (Hlon : longitude (mkCoordinate 0 36.8) <> 0) by (simpl; lra).
  destruct (proj2 (simulateWalk_base
              (exec (SQLiteVariant.setLocation (Some (mkCoordinate 0 36.8)))
                    (SQLiteVariant.mount SQLiteVariant.empty_db)))
              (mkCoordinate 0 36.8) eq_refl) as [_ [H2 [H3 _]]].
  split; [reflexivity |]. split; [reflexivity |]. split; [exact Hlon |].
  split; [exact (H3 eq_refl) | exact (H2 Hlon)].
Defined.

(** ** The message to the web view *)

(** X20: the effect that pushes updates to the web view posts nothing
    before the map is ready; after a confirmed, successful reset on a
    screen that has no last-known coordinate it posts nothing either,
    whatever the flags; and after a fix delivered to a subscription, on a
    ready map, it posts the fix as location together with the whole
    ExploredSet. *)
Theorem pushUpdate_guard (webview : bool) (s : SQLiteVariant.Screen) :
  SQLiteVariant.pushUpdate false webview s = None /\
  (forall isMapReady,
     SQLiteVariant.location s = None ->
     SQLiteVariant.pushUpdate isMapReady webview
       (exec (SQLiteVariant.reset SQLiteVariant.Clear Resolved) s) = None) /\
  (forall sub c now insert,
     SQLiteVariant.watcher s = Some sub ->
     let s' := exec (SQLiteVariant.deliver c now insert) s in
     SQLiteVariant.pushUpdate true true s' =
       Some (SQLiteVariant.mkWebMessage (Some c)
               (SQLiteVariant.explored s') (SQLiteVariant.isTracking s))).
Proof.
  split; [reflexivity |]. split.
  - intros isMapReady Hl. unfold SQLiteVariant.pushUpdate. simpl.
    rewrite Hl. simpl. now rewrite andb_false_r.
  - intros sub c now insert Hw. cbv zeta.
    destruct (sqlite_deliver_frame c now insert s) as [_ Ht].
    unfold exec, SQLiteVariant.deliver in *. rewrite Hw in *.
    destruct (sqlite_onFix_spec sub c now insert s) as [Hl _].
    unfold exec in Hl.
    unfold SQLiteVariant.pushUpdate. rewrite Hl, Ht. reflexivity.
Qed.

Lemma pushUpdate_guard_witness :
  SQLiteVariant.location (SQLiteVariant.mount SQLiteVariant.empty_db)
    = None /\
  SQLiteVariant.pushUpdate true true
    (exec (SQLiteVariant.reset SQLiteVariant.Clear Resolved)
          (SQLiteVariant.mount SQLiteVariant.empty_db)) = None.
Proof.
  split; [reflexivity |].
  exact (proj1 (proj2 (pushUpdate_guard true
                         (SQLiteVariant.mount SQLiteVariant.empty_db)))
               true eq_refl).
Defined.

(** ** The AsyncStorage revision *)


Lemma async_step_mirrored (ev : AsyncStorageVariant.Event)
  (s : AsyncStorageVariant.Screen) :
  AsyncStorageVariant.write_ok ev ->
  AsyncStorageVariant.persisted s = AsyncStorageVariant.explored s ->
  AsyncStorageVariant.persisted (exec (AsyncStorageVariant.step ev) s)
  = AsyncStorageVariant.explored (exec (AsyncStorageVariant.step ev) s).
Proof.
  intros Hok Hm.
  destruct ev as [status | | c write | remove write]; simpl in Hok.
  - destruct status; exact Hm.
  - exact Hm.
  - subst write. unfold exec. simpl.
    destruct (AsyncStorageVariant.watcher s) as [sub |]; [| exact Hm].
    unfold AsyncStorageVariant.onFix, bind. simpl.
    destruct (isNew (cb_explored sub) c); simpl; [reflexivity | exact Hm].
  - subst write. destruct remove; reflexivity.
Qed.

(** X22: while every write of the persistence effect succeeds, the store
    holds exactly ExploredSet after every event: fixes, resets (whatever
    becomes of the removal), starts and stops keep the stored array equal
    to the in-memory one. *)
Theorem async_store_mirrors_memory (evs : list AsyncStorageVariant.Event)
  (s : AsyncStorageVariant.Screen) :
  Forall AsyncStorageVariant.write_ok evs ->
  AsyncStorageVariant.persisted s = AsyncStorageVariant.explored s ->
  AsyncStorageVariant.persisted (AsyncStorageVariant.run evs s)
  = AsyncStorageVariant.explored (AsyncStorageVariant.run evs s).
Proof.
  revert s. induction evs as [| ev evs IH]; intros s Hall Hm; [exact Hm |].
  inversion Hall as [| ? ? Hev Hevs]; subst.
  rewrite async_run_cons. apply IH; [exact Hevs |].
  now apply async_step_mirrored.
Qed.

Lemma async_store_mirrors_memory_witness :
  let evs :=
    [AsyncStorageVariant.StartTracking granted;
     AsyncStorageVariant.Fix kgp Resolved;
     AsyncStorageVariant.Reset Rejected Resolved;
     AsyncStorageVariant.Fix kgp_near Resolved] in
  Forall AsyncStorageVariant.write_ok evs /\
  AsyncStorageVariant.persisted (AsyncStorageVariant.mount None)
    = AsyncStorageVariant.explored (AsyncStorageVariant.mount None) /\
  AsyncStorageVariant.persisted
    (AsyncStorageVariant.run evs (AsyncStorageVariant.mount None))
  = AsyncStorageVariant.explored
      (AsyncStorageVariant.run evs (AsyncStorageVariant.mount None)).
Proof.
  cbv zeta.
  assert (Hall : Forall AsyncStorageVariant.write_ok
            [AsyncStorageVariant.StartTracking granted;
             AsyncStorageVariant.Fix kgp Resolved;
             AsyncStorageVariant.Reset Rejected Resolved;
             AsyncStorageVariant.Fix kgp_near Resolved]).
  { repeat constructor. }
  split; [exact Hall |]. split; [reflexivity |].
  exact (async_store_mirrors_memory _ (AsyncStorageVariant.mount None)
           Hall eq_refl).
Defined.

Lemma async_idle_step (ev : AsyncStorageVariant.Event)
  (s : AsyncStorageVariant.Screen) :
  AsyncStorageVariant.idle_event ev ->
  AsyncStorageVariant.watcher s = None ->
  AsyncStorageVariant.isTracking s = false ->
  exec (AsyncStorageVariant.step ev) s = s.
Proof.
  intros Hidle Hw Ht.
  destruct ev as [status | | c write | remove write]; simpl in Hidle;
    try contradiction.
  - destruct status; try reflexivity. contradiction Hidle. reflexivity.
  - destruct s as [l e t w st calls]. simpl in *. subst. reflexivity.
  - unfold exec. simpl. now rewrite Hw.
Qed.

(** X23: the AsyncStorage revision writes only for a new point.  From a
    screen that is not tracking, fixes, stops and starts whose permission
    is refused leave the screen and the store untouched; and a fix that
    the test classifies as not new changes the last-known coordinate
    only: no [setItem] is called and the store is as before. *)
Theorem async_writes_only_new_points (s : AsyncStorageVariant.Screen) :
  (forall evs,
     Forall AsyncStorageVariant.idle_event evs ->
     AsyncStorageVariant.watcher s = None ->
     AsyncStorageVariant.isTracking s = false ->
     AsyncStorageVariant.run evs s = s) /\
  (forall sub c write,
     AsyncStorageVariant.watcher s = Some sub ->
     isNew (cb_explored sub) c = false ->
     let s' := exec (AsyncStorageVariant.step
                       (AsyncStorageVariant.Fix c write)) s in
     AsyncStorageVariant.location s' = Some c /\
     AsyncStorageVariant.explored s' = AsyncStorageVariant.explored s /\
     AsyncStorageVariant.storage s' = AsyncStorageVariant.storage s /\
     AsyncStorageVariant.storage_calls s'
       = AsyncStorageVariant.storage_calls s).
Proof.
  split.
  - intros evs. revert s.
    induction evs as [| ev evs IH]; intros s Hall Hw Ht; [reflexivity |].
    inversion Hall as [| ? ? Hev Hevs]; subst.
    rewrite async_run_cons, (async_idle_step ev s Hev Hw Ht).
    now apply IH.
  - intros sub c write Hw Hnew. cbv zeta.
    unfold exec. simpl. rewrite Hw.
    unfold AsyncStorageVariant.onFix, bind. simpl. rewrite Hnew. simpl.
    repeat split.
Qed.

Lemma async_writes_only_new_points_witness :
  let s0 := exec (AsyncStorageVariant.loadEffect Resolved)
                 (AsyncStorageVariant.mount (Some [kgp])) in
  let s1 := exec (AsyncStorageVariant.startTracking granted) s0 in
  AsyncStorageVariant.watcher s1 = Some (mkSubscription [kgp]) /\
  isNew (cb_explored (mkSubscription [kgp])) kgp = false /\
  AsyncStorageVariant.storage_calls
    (exec (AsyncStorageVariant.step (AsyncStorageVariant.Fix kgp Resolved)) s1)
  = AsyncStorageVariant.storage_calls s1.
Proof.
  cbv zeta.
  assert (Hnew : isNew (cb_explored (mkSubscription [kgp])) kgp = false).
  { apply isNew_member. left. reflexivity. }
  split; [reflexivity |]. split; [exact Hnew |].
  destruct (proj2 (async_writes_only_new_points
              (exec (AsyncStorageVariant.startTracking granted)
                 (exec (AsyncStorageVariant.loadEffect Resolved)
                    (AsyncStorageVariant.mount (Some [kgp])))))
              (mkSubscription [kgp]) kgp Resolved eq_refl Hnew)
    as [_ [_ [_ Hcalls]]].
  exact Hcalls.
Defined.

(** ** The fog overlay *)

(** X24: the circle drawn for an explored point lies on the window when
    the point's longitude is between -180 and 180 and its latitude
    between -90 and 90; a point further east is drawn further right and a
    point further north is drawn higher. *)
Theorem circle_on_window (width height : R) (p q : Coordinate) :
  0 < width -> 0 < height ->
  (-180 <= longitude p <= 180 ->
   0 <= AsyncStorageVariant.circle_cx width p <= width) /\
  (-90 <= latitude p <= 90 ->
   0 <= AsyncStorageVariant.circle_cy height p <= height) /\
  (longitude p < longitude q ->
   AsyncStorageVariant.circle_cx width p
     < AsyncStorageVariant.circle_cx width q) /\
  (latitude p < latitude q ->
   AsyncStorageVariant.circle_cy height q
     < AsyncStorageVariant.circle_cy height p).
Proof.
  intros Hw Hh.
  unfold AsyncStorageVariant.circle_cx, AsyncStorageVariant.circle_cy.
  repeat split; intros; nra.
Qed.

Lemma circle_on_window_witness :
  0 < 390 /\ 0 < 844 /\
  (-180 <= longitude kgp <= 180) /\
  0 <= AsyncStorageVariant.circle_cx 390 kgp <= 390.
Proof.
  assert (Hw : 0 < 390) by lra.
  assert (Hh : 0 < 844) by lra.
  assert (Hl : -180 <= longitude kgp <= 180) by (simpl; lra).
  split; [exact Hw |]. split; [exact Hh |]. split; [exact Hl |].
  exact (proj1 (circle_on_window 390 844 kgp kgp Hw Hh) Hl).
Defined.

(** ** What the test does guarantee *)

Lemma pairwise_far_snoc (l : list Coordinate) (c : Coordinate) :
  pairwise_far l -> min_distance_ok l c -> pairwise_far (l ++ [c]).
Proof.
  intros Hl Hc i j p q Hij Hi Hj.
  destruct (Nat.lt_ge_cases i (length l)) as [Hil | Hil];
    destruct (Nat.lt_ge_cases j (length l)) as [Hjl | Hjl].
  - rewrite nth_error_app1 in Hi, Hj by assumption.
    exact (Hl i j p q Hij Hi Hj).
  - rewrite nth_error_app1 in Hi by assumption.
    rewrite nth_error_app2 in Hj by assumption.
    destruct (j - length l)%nat as [| n]; simpl in Hj;
      [| destruct n; discriminate].
    injection Hj as <-. apply Hc. eapply nth_error_In. exact Hi.
  - rewrite nth_error_app2 in Hi by assumption.
    rewrite nth_error_app1 in Hj by assumption.
    destruct (i - length l)%nat as [| n]; simpl in Hi;
      [| destruct n; discriminate].
    injection Hi as <-. rewrite getDistance_sym.
    apply Hc. eapply nth_error_In. exact Hj.
  - rewrite nth_error_app2 in Hi, Hj by assumption.
    destruct (i - length l)%nat as [| n] eqn:Ei; simpl in Hi;
      [| destruct n; discriminate].
    destruct (j - length l)%nat as [| m] eqn:Ej; simpl in Hj;
      [| destruct m; discriminate].
    lia.
Qed.

Lemma pairwise_far_two (p q : Coordinate) :
  30 <= getDistance p q -> pairwise_far [p; q].
Proof.
  intros H. apply (pairwise_far_snoc [p] q); [apply pairwise_far_one |].
  intros pt [<- | []]. exact H.
Qed.

(** Between the poles, a difference of latitude of at least 0.00027
    degrees is a distance of at least 30 m. *)
Lemma getDistance_lat_far (a b : Coordinate) :
  -90 <= latitude a <= 90 -> -90 <= latitude b <= 90 ->
  0.00027 <= Rabs (latitude b - latitude a) ->
  30 <= getDistance a b.
Proof.
  intros Ha Hb Hfar.
  pose proof PI_bounds as [Hp1 Hp2].
  pose proof (getDistance_ge_arc a b (toRad (latitude b - latitude a) / 2)
                ltac:(unfold toRad; split; nra)
                (getDistance_a_lower_lat a b Ha Hb)) as Hge.
  assert (Hxabs : Rabs (toRad (latitude b - latitude a) / 2)
                  = Rabs (latitude b - latitude a) * PI / 360).
  { unfold toRad.
    replace ((latitude b - latitude a) * PI / 180 / 2)
      with ((latitude b - latitude a) * (PI / 360)) by field.
    rewrite Rabs_mult, (Rabs_pos_eq (PI / 360)) by lra. field. }
  rewrite Hxabs in Hge. nra.
Qed.

(** About 567 m north of [kgp]. *)
Lemma isNew_kgp_north :
  isNew [kgp; kgp_near] (mkCoordinate 22.3200 87.3105) = true.
Proof.
  apply isNew_true_iff. intros pt [<- | [<- | []]];
    apply getDistance_lat_far; simpl; try lra;
    rewrite Rabs_pos_eq; lra.
Qed.

(** X25: the first fix after a start keeps the points apart.  If the
    points of ExploredSet are pairwise at least 30 m apart, they still
    are after tracking is stopped, started again and one fix is
    delivered, whatever the outcome of its insert. *)
Theorem first_fix_keeps_pairwise_distance
  (order : list SQLiteVariant.Row -> list SQLiteVariant.Row)
  (c : Coordinate) (now : Z) (insert : Settled) (s : SQLiteVariant.Screen) :
  pairwise_far (SQLiteVariant.explored s) ->
  pairwise_far
    (SQLiteVariant.explored
       (SQLiteVariant.run order
          [SQLiteVariant.StopTracking;
           SQLiteVariant.StartTracking granted;
           SQLiteVariant.Fix c now insert] s)).
Proof.
  intros Hfar. rewrite !sqlite_run_cons.
  set (s2 := exec (SQLiteVariant.step order (SQLiteVariant.StartTracking granted))
               (exec (SQLiteVariant.step order SQLiteVariant.StopTracking) s)).
  change (SQLiteVariant.run order [] ?x) with x.
  destruct (sqlite_onFix_spec (mkSubscription (SQLiteVariant.explored s))
              c now insert s2) as [_ [Hex _]].
  change (SQLiteVariant.explored
            (exec (SQLiteVariant.step order (SQLiteVariant.Fix c now insert)) s2))
    with (SQLiteVariant.explored
            (exec (SQLiteVariant.onFix
                     (mkSubscription (SQLiteVariant.explored s))
                     c now insert) s2)).
  rewrite Hex.
  change (SQLiteVariant.explored s2) with (SQLiteVariant.explored s).
  change (cb_explored (mkSubscription (SQLiteVariant.explored s)))
    with (SQLiteVariant.explored s).
  destruct (isNew (SQLiteVariant.explored s) c) eqn:Hnew; [| exact Hfar].
  destruct insert; [| exact Hfar].
  apply pairwise_far_snoc; [exact Hfar |].
  now apply isNew_true_iff.
Qed.

Lemma first_fix_keeps_pairwise_distance_witness :
  let s :=
    exec (SQLiteVariant.initDB (fun l => l) Resolved Resolved)
         (SQLiteVariant.mount
            (SQLiteVariant.mkDb
               [SQLiteVariant.mkRow 1 22.3149 87.3105 0;
                SQLiteVariant.mkRow 2 22.3151 87.3107 1] 2)) in
  let s' :=
    SQLiteVariant.run (fun l => l)
      [SQLiteVariant.StopTracking;
       SQLiteVariant.StartTracking granted;
       SQLiteVariant.Fix (mkCoordinate 22.3200 87.3105) 2 Resolved] s in
  SQLiteVariant.explored s = [kgp; kgp_near] /\
  pairwise_far (SQLiteVariant.explored s) /\
  SQLiteVariant.explored s'
    = [kgp; kgp_near; mkCoordinate 22.3200 87.3105] /\
  pairwise_far (SQLiteVariant.explored s').
Proof.
  cbv zeta.
  assert (H : pairwise_far
            (SQLiteVariant.explored
               (exec (SQLiteVariant.initDB (fun l => l) Resolved Resolved)
                  (SQLiteVariant.mount
                     (SQLiteVariant.mkDb
                        [SQLiteVariant.mkRow 1 22.3149 87.3105 0;
                         SQLiteVariant.mkRow 2 22.3151 87.3107 1] 2))))).
  { apply (pairwise_far_two kgp kgp_near). exact getDistance_kgp_near. }
  assert (He : SQLiteVariant.explored
            (SQLiteVariant.run (fun l => l)
               [SQLiteVariant.StopTracking;
                SQLiteVariant.StartTracking granted;
                SQLiteVariant.Fix (mkCoordinate 22.3200 87.3105) 2 Resolved]
               (exec (SQLiteVariant.initDB (fun l => l) Resolved Resolved)
                  (SQLiteVariant.mount
                     (SQLiteVariant.mkDb
                        [SQLiteVariant.mkRow 1 22.3149 87.3105 0;
                         SQLiteVariant.mkRow 2 22.3151 87.3107 1] 2))))
            = [kgp; kgp_near; mkCoordinate 22.3200 87.3105]).
  { rewrite !sqlite_run_cons.
    change (SQLiteVariant.run (fun l => l) [] ?x) with x.
    set (s2 := exec (SQLiteVariant.step (fun l => l)
                       (SQLiteVariant.StartTracking granted))
                 (exec (SQLiteVariant.step (fun l => l)
                          SQLiteVariant.StopTracking)
                    (exec (SQLiteVariant.initDB (fun l => l) Resolved Resolved)
                       (SQLiteVariant.mount
                          (SQLiteVariant.mkDb
                             [SQLiteVariant.mkRow 1 22.3149 87.3105 0;
                              SQLiteVariant.mkRow 2 22.3151 87.3107 1] 2))))).
    assert (Hw : SQLiteVariant.watcher s2
                 = Some (mkSubscription [kgp; kgp_near])) by reflexivity.
    exact (proj1 (sqlite_fix_new_appended (fun l => l)
                    (mkSubscription [kgp; kgp_near])
                    (mkCoordinate 22.3200 87.3105) 2 s2 Hw
                    isNew_kgp_north)). }
  split; [reflexivity |]. split; [exact H |]. split; [exact He |].
  exact (first_fix_keeps_pairwise_distance (fun l => l)
           (mkCoordinate 22.3200 87.3105) 2 Resolved _ H).
Defined.

(** X26: under one subscription, with any insert outcomes, every point
    of ExploredSet after a run of fixes was there before the run or is a
    fix at least 30 m from every point held when tracking started. *)
Theorem appended_points_far_from_snapshot
  (order : list SQLiteVariant.Row -> list SQLiteVariant.Row)
  (sub : Subscription) (fixes : list (Coordinate * Z * Settled)) :
  forall s : SQLiteVariant.Screen,
    SQLiteVariant.watcher s = Some sub ->
    let s' :=
      SQLiteVariant.run order
        (map (fun f => SQLiteVariant.Fix (fst (fst f)) (snd (fst f)) (snd f))
             fixes) s in
    forall p, In p (SQLiteVariant.explored s') ->
      In p (SQLiteVariant.explored s) \/
      (In p (map (fun f => fst (fst f)) fixes) /\
       min_distance_ok (cb_explored sub) p).
Proof.
  induction fixes as [| [[c now] insert] fixes IH]; intros s Hw; cbv zeta.
  - intros p Hin. left. exact Hin.
  - rewrite map_cons, sqlite_run_cons. simpl fst. simpl snd.
    set (s1 := exec (SQLiteVariant.step order
                       (SQLiteVariant.Fix c now insert)) s).
    destruct (sqlite_deliver_frame c now insert s) as [Hw1 _].
    assert (Hw1' : SQLiteVariant.watcher s1 = Some sub).
    { rewrite <- Hw. exact Hw1. }
    assert (He1 : SQLiteVariant.explored s1 =
                  (if isNew (cb_explored sub) c
                   then match insert with
                        | Resolved => SQLiteVariant.explored s ++ [c]
                        | Rejected => SQLiteVariant.explored s
                        end
                   else SQLiteVariant.explored s)).
    { destruct (sqlite_onFix_spec sub c now insert s) as [_ [He _]].
      unfold s1, exec. simpl. unfold SQLiteVariant.deliver. rewrite Hw.
      exact He. }
    intros p Hin.
    destruct (IH s1 Hw1' p Hin) as [Hold | [Hfix Hfar]].
    + rewrite He1 in Hold.
      destruct (isNew (cb_explored sub) c) eqn:Hnew; [| left; exact Hold].
      destruct insert; [| left; exact Hold].
      apply in_app_or in Hold. destruct Hold as [Hold | [<- | []]].
      * left. exact Hold.
      * right. split; [left; reflexivity | now apply isNew_true_iff].
    + right. split; [right; exact Hfix | exact Hfar].
Qed.

Lemma appended_points_far_from_snapshot_witness :
  let s :=
    exec (SQLiteVariant.startTracking granted)
      (exec (SQLiteVariant.initDB (fun l => l) Resolved Resolved)
         (SQLiteVariant.mount
            (SQLiteVariant.mkDb
               [SQLiteVariant.mkRow 1 22.3149 87.3105 0] 1))) in
  SQLiteVariant.watcher s = Some (mkSubscription [kgp]) /\
  forall p,
    In p (SQLiteVariant.explored
            (SQLiteVariant.run (fun l => l)
               (map (fun f => SQLiteVariant.Fix (fst (fst f)) (snd (fst f))
                                                (snd f))
                    [(kgp_near, 3%Z, Resolved)]) s)) ->
    In p (SQLiteVariant.explored s) \/
    (In p (map (fun f => fst (fst f)) [(kgp_near, 3%Z, Resolved)]) /\
     min_distance_ok (cb_explored (mkSubscription [kgp])) p).
Proof.
  cbv zeta. split; [reflexivity |].
  exact (appended_points_far_from_snapshot (fun l => l)
           (mkSubscription [kgp]) [(kgp_near, 3%Z, Resolved)]
           (exec (SQLiteVariant.startTracking granted)
              (exec (SQLiteVariant.initDB (fun l => l) Resolved Resolved)
                 (SQLiteVariant.mount
                    (SQLiteVariant.mkDb
                       [SQLiteVariant.mkRow 1 22.3149 87.3105 0] 1))))
           eq_refl).
Defined.
